(** * Bio.AlignIO.MafIO: the MAF parser, the MAF index and the exon splicer

    A shallow embedding of [Bio/AlignIO/MafIO.py].  Python integers are [Z],
    Python strings are lists of characters, a Python [set] is a [gset], a
    Python [dict] is a [gmap], and a raised exception is the left summand of
    a sum type. *)

From Stdlib Require Import ZArith Lia List Ascii String Sorting.Sorted.
From stdpp Require Import gmap strings list list_numbers fin_maps sorting pretty.

Local Open Scope Z_scope.

(** ** Python values *)

(** A Python [str]: a sequence of characters. *)
Abbreviation str := (list ascii).

(** A string literal. *)
Definition s2l (s : string) : str := list_ascii_of_string s.

(** The exceptions the module raises or lets escape. *)
Inductive exn : Type :=
  | ValueError
  | IndexError
  | KeyError
  | TypeError
  | AssertionError
  | StopIteration
  | OperationalError
  | ProgrammingError
  | UnboundLocalError.

(** A computation that returns a value or raises. *)
Abbreviation result := (sum exn).
Abbreviation Ok := inr (only parsing).
Abbreviation Raise := inl (only parsing).

#[global] Instance result_ret : MRet result := fun A x => inr x.
#[global] Instance result_bind : MBind result := fun A B k m =>
  match m with
  | inl e => inl e
  | inr x => k x
  end.
#[global] Instance result_fmap : FMap result := fun A B f m =>
  match m with
  | inl e => inl e
  | inr x => inr (f x)
  end.

(** [range(lo, hi)]. *)
Definition py_range (lo hi : Z) : list Z := seqZ lo (hi - lo).

(** ** The UCSC binning scheme *)

Module Binning.

(** [MafIndex._region2bin]. *)
Definition _region2bin (start end_ : Z) : gset Z :=
  let bins := [0; 1] in
  let bins := bins ++ py_range (1 + Z.shiftr start 26) (2 + Z.shiftr (end_ - 1) 26) in
  let bins := bins ++ py_range (9 + Z.shiftr start 23) (10 + Z.shiftr (end_ - 1) 23) in
  let bins := bins ++ py_range (73 + Z.shiftr start 20) (74 + Z.shiftr (end_ - 1) 20) in
  let bins := bins ++ py_range (585 + Z.shiftr start 17) (586 + Z.shiftr (end_ - 1) 17) in
  list_to_set bins.

Definition bin_offsets : list Z := [512 + 64 + 8 + 1; 64 + 8 + 1; 8 + 1; 1; 0].
Definition _bin_first_shift : Z := 17.
Definition _bin_next_shift : Z := 3.

(** The [for bin_offset in bin_offsets] loop of [_ucscbin]; falling out of
    the loop returns 0. *)
Fixpoint _ucscbin_loop (offsets : list Z) (start_bin end_bin : Z) : Z :=
  match offsets with
  | [] => 0
  | bin_offset :: offsets' =>
      if decide (start_bin = end_bin) then bin_offset + start_bin
      else _ucscbin_loop offsets'
             (Z.shiftr start_bin _bin_next_shift)
             (Z.shiftr end_bin _bin_next_shift)
  end.

(** [MafIndex._ucscbin]. *)
Definition _ucscbin (start end_ : Z) : Z :=
  let start_bin := start in
  let end_bin := end_ - 1 in
  _ucscbin_loop bin_offsets
    (Z.shiftr start_bin _bin_first_shift)
    (Z.shiftr end_bin _bin_first_shift).

End Binning.

(** ** Python string operations

    Characters are code points below 256; whitespace is what [str.isspace]
    accepts there (Python 3). *)

Definition is_space (c : ascii) : bool :=
  let n := nat_of_ascii c in
  ((9 <=? n) && (n <=? 13) || (28 <=? n) && (n <=? 32)
   || (n =? 133) || (n =? 160))%nat.

(** [s.startswith(prefix)]. *)
Fixpoint startswith (prefix s : str) : bool :=
  match prefix, s with
  | [], _ => true
  | _ :: _, [] => false
  | p :: prefix', c :: s' => bool_decide (p = c) && startswith prefix' s'
  end.

Fixpoint lstrip (s : str) : str :=
  match s with
  | c :: s' => if is_space c then lstrip s' else s
  | [] => []
  end.

(** [s.strip()]. *)
Definition strip (s : str) : str := reverse (lstrip (reverse (lstrip s))).

(** [s.split()]: the maximal runs of non-whitespace characters.  [cur] is
    the run being read, last character first. *)
Fixpoint split_from (cur : str) (s : str) : list str :=
  match s with
  | [] => match cur with [] => [] | _ => [reverse cur] end
  | c :: s' =>
      if is_space c
      then match cur with [] => split_from [] s' | _ => reverse cur :: split_from [] s' end
      else split_from (c :: cur) s'
  end.

Definition split (s : str) : list str := split_from [] s.

(** [s.split(sep)] for a one-character separator: always at least one piece. *)
Fixpoint split_on_from (sep : ascii) (cur : str) (s : str) : list str :=
  match s with
  | [] => [reverse cur]
  | c :: s' =>
      if bool_decide (c = sep) then reverse cur :: split_on_from sep [] s'
      else split_on_from sep (c :: cur) s'
  end.

Definition split_on (sep : ascii) (s : str) : list str := split_on_from sep [] s.

(** [s.count(c)] for a one-character [c]. *)
Definition count (c : ascii) (s : str) : Z :=
  Z.of_nat (length (filter (fun x => x = c) s)).

(** [len(s)]. *)
Definition len {A : Type} (l : list A) : Z := Z.of_nat (length l).

(** [s.replace("-", "")]. *)
Definition ungap (s : str) : str := filter (fun c => c <> "-"%char) s.

(** [c * n] for a one-character string [c]: empty when [n] is not positive. *)
Definition str_mul (c : ascii) (n : Z) : str := replicate (Z.to_nat n) c.

Definition digit_value (c : ascii) : option Z :=
  let n := nat_of_ascii c in
  if ((48 <=? n) && (n <=? 57))%nat then Some (Z.of_nat n - 48) else None.

Fixpoint digits_from (acc : Z) (s : str) : option Z :=
  match s with
  | [] => Some acc
  | c :: s' =>
      match digit_value c with
      | Some d => digits_from (10 * acc + d) s'
      | None => None
      end
  end.

Definition unsigned_int (s : str) : option Z :=
  match s with
  | [] => None
  | _ => digits_from 0 s
  end.

(** [int(s)] on a string: surrounding whitespace, an optional sign, then
    decimal digits; anything else is a [ValueError].  (The digit-grouping
    underscores of later Python versions are not part of this grammar.) *)
Definition py_int (s : str) : result Z :=
  let body := strip s in
  let parsed :=
    match body with
    | "-"%char :: ds => Z.opp <$> unsigned_int ds
    | "+"%char :: ds => unsigned_int ds
    | _ => unsigned_int body
    end in
  match parsed with
  | Some n => Ok n
  | None => Raise ValueError
  end.

(** [l[i]] on a list, for a non-negative literal [i]. *)
Definition item {A : Type} (l : list A) (i : nat) : result A :=
  match l !! i with
  | Some x => Ok x
  | None => Raise IndexError
  end.

(** ** Sequence records and alignments *)

(** The [annotations] dictionary of a record read from a MAF file. *)
Record Annotations : Type := {
  start : Z;
  size : Z;
  strand : Z;
  srcSize : Z
}.

(** [Bio.SeqRecord.SeqRecord], with the attributes this module sets.
    [annotations = None] is the empty dictionary of a record built without
    annotations. *)
Record SeqRecord : Type := {
  seq : str;
  id : str;
  annotations : option Annotations
}.

(** [Bio.Align.MultipleSeqAlignment] with the private [_annotations]
    attribute set by [MafIterator]. *)
Record Alignment : Type := {
  records : list SeqRecord;
  _annotations : gmap str str
}.

(** Modelled from the spec: the constructor [MultipleSeqAlignment] of
    [Bio.Align] is missing from the sources.  The spec's data model makes
    an alignment block "an ordered list of SequenceRecords of equal aligned
    (gapped) length", so the constructor refuses records whose lengths
    differ from the first one's. *)
Definition MultipleSeqAlignment (recs : list SeqRecord) : result Alignment :=
  match recs with
  | [] => Ok {| records := []; _annotations := ∅ |}
  | r :: _ =>
      if forallb (fun r' => bool_decide (length (seq r') = length (seq r))) recs
      then Ok {| records := recs; _annotations := ∅ |}
      else Raise ValueError
  end.

(** ** [MafIterator]: the block parser *)

(** The local variables of the generator [MafIterator]. *)
Record iter_state : Type := {
  in_a_bundle : bool;
  bundle_annotations : gmap str str;
  bundle_records : list SeqRecord
}.

(** The state on entry, and again after every [yield]. *)
Definition iter_init : iter_state :=
  {| in_a_bundle := false; bundle_annotations := ∅; bundle_records := [] |}.

(** What one turn of the [while True] loop does after reading a line. *)
Inductive action : Type :=
  | Continue (st : iter_state)
  | Yield (alignment : Alignment)
  | Break.

(** A dot stands for the letter of the first sequence in the same column;
    [zip] stops at the shorter of the two strings. *)
Definition expand_dots (sequence ref : str) : str :=
  zip_with (fun letter ref_letter =>
              if bool_decide (letter = "."%char) then ref_letter else letter)
    sequence ref.

(** The body of the [line.startswith("s")] branch, up to the new record. *)
Definition parse_s_line (recs : list SeqRecord) (line : str) : result SeqRecord :=
  let line_split := split (strip line) in
  if bool_decide (length line_split <> 7%nat) then Raise ValueError else
  f4 ← item line_split 4;
  let strand_ :=
    if bool_decide (f4 = s2l "+") then 1
    else if bool_decide (f4 = s2l "-") then -1
    else 1 in
  f2 ← item line_split 2; start_ ← py_int f2;
  f3 ← item line_split 3; size_ ← py_int f3;
  f5 ← item line_split 5; srcSize_ ← py_int f5;
  let anno := {| start := start_; size := size_; strand := strand_; srcSize := srcSize_ |} in
  sequence ← item line_split 6;
  sequence ←
    (if bool_decide ("."%char ∈ sequence) then
       match recs with
       | [] => Raise ValueError
       | first :: _ => Ok (expand_dots sequence (seq first))
       end
     else Ok sequence);
  f1 ← item line_split 1;
  Ok {| seq := sequence; id := f1; annotations := Some anno |}.

(** [dict(pairs)] where every element must have exactly two items; a later
    key overrides an earlier one. *)
Fixpoint dict_of_pairs (acc : gmap str str) (pairs : list (list str)) : result (gmap str str) :=
  match pairs with
  | [] => Ok acc
  | [k; v] :: pairs' => dict_of_pairs (<[k := v]> acc) pairs'
  | _ :: _ => Raise ValueError
  end.

(** One turn of the loop of [MafIterator] on the line just read ([""] at
    the end of the input). *)
Definition iter_step (seq_count : option Z) (st : iter_state) (line : str) : result action :=
  if in_a_bundle st then
    if startswith (s2l "s") line then
      r ← parse_s_line (bundle_records st) line;
      Ok (Continue {| in_a_bundle := true;
                      bundle_annotations := bundle_annotations st;
                      bundle_records := bundle_records st ++ [r] |})
    else if startswith (s2l "i") line then Ok (Continue st)
    else if startswith (s2l "e") line then Ok (Continue st)
    else if startswith (s2l "q") line then Ok (Continue st)
    else if startswith (s2l "#") line then Ok (Continue st)
    else if bool_decide (strip line = []) then
      _ ← match seq_count with
          | Some n =>
              if bool_decide (len (bundle_records st) = n) then Ok tt
              else Raise AssertionError
          | None => Ok tt
          end;
      alignment ← MultipleSeqAlignment (bundle_records st);
      Ok (Yield {| records := records alignment;
                   _annotations := bundle_annotations st |})
    else Raise ValueError
  else if startswith (s2l "a") line then
    let annot_strings := drop 1 (split (strip line)) in
    if bool_decide (len annot_strings <> count "="%char line) then Raise ValueError else
    annos ← dict_of_pairs ∅ (split_on "="%char <$> annot_strings);
    Ok (Continue {| in_a_bundle := true;
                    bundle_annotations := annos;
                    bundle_records := bundle_records st |})
  else if startswith (s2l "#") line then Ok (Continue st)
  else if bool_decide (line = []) then Ok Break
  else Ok (Continue st).

(** [next(mafiter)] on a generator that is fresh or suspended at its
    [yield]: run the loop over the lines the handle still has, then over
    the empty line the exhausted handle stands for.  [None] is the
    generator returning (the caller's [next] raises [StopIteration]).  At
    the end of the input a turn never asks for another line (lemma
    [iter_step_eof] below), so the last [Continue] case is never taken. *)
Fixpoint iter_run (seq_count : option Z) (st : iter_state) (lines : list str)
  : result (option Alignment) :=
  match lines with
  | [] =>
      a ← iter_step seq_count st [];
      match a with
      | Yield alignment => Ok (Some alignment)
      | Break => Ok None
      | Continue _ => Ok None
      end
  | line :: lines' =>
      a ← iter_step seq_count st line;
      match a with
      | Continue st' => iter_run seq_count st' lines'
      | Yield alignment => Ok (Some alignment)
      | Break => Ok None
      end
  end.

(** ** The alignment file

    [open(maf_file, "r")] opens the file in text mode (Python 3).  The file
    is its bytes, one character for each byte; a line ends at a line feed,
    at a carriage return followed by a line feed, or at a carriage return
    alone, and [readline] returns it with a line feed in the place of that
    line end (universal newlines). *)

(** The pieces of the file that the calls of [readline] read, each with
    its line end as the file has it; [cur] is the piece being read, last
    byte first.  A piece whose last byte is a carriage return ends there
    unless a line feed follows. *)
Fixpoint rawlines_from (cur : str) (content : str) : list str :=
  match content with
  | [] => match cur with [] => [] | _ => [reverse cur] end
  | c :: content' =>
      if bool_decide (c = "010"%char)
      then reverse (c :: cur) :: rawlines_from [] content'
      else if bool_decide (head cur = Some "013"%char)
      then reverse cur :: rawlines_from [c] content'
      else rawlines_from (c :: cur) content'
  end.

Definition rawlines (content : str) : list str := rawlines_from [] content.

(** The line [readline] returns for a piece: its line end becomes a line
    feed. *)
Definition text_line (raw : str) : str :=
  match reverse raw with
  | c :: rest =>
      if bool_decide (c = "013"%char) then reverse ("010"%char :: rest)
      else if bool_decide (c = "010"%char) then
        match rest with
        | c' :: rest' =>
            if bool_decide (c' = "013"%char) then reverse ("010"%char :: rest')
            else raw
        | [] => raw
        end
      else raw
  | [] => raw
  end.

(** The lines [readline] returns, each with its newline. *)
Definition readlines (content : str) : list str := text_line <$> rawlines content.

(** The text layer holds a carriage return back when the piece just read
    ends with one, or when the next byte of the file is one. *)
Definition pending_cr (raw : str) (next : option str) : bool :=
  bool_decide (last raw = Some "013"%char)
  || match next with
     | Some (c :: _) => bool_decide (c = "013"%char)
     | _ => false
     end.

(** [tell()] after [readline] has read the piece [raw], the file being
    read up to the byte [pos], [next] being the piece that follows.  It is
    the number of bytes read, unless the text layer holds a carriage return
    back: the number it returns then is not a position (the library
    documents it as opaque), and is [opaque pos] here. *)
Definition tell (opaque : Z -> Z) (pos : Z) (raw : str) (next : option str) : Z :=
  if pending_cr raw next then opaque pos else pos.

(** Each line with [tell() - len(line)], [pos] being the number of bytes
    read before the line. *)
Fixpoint with_offsets (opaque : Z -> Z) (pos : Z) (raws : list str) : list (Z * str) :=
  match raws with
  | [] => []
  | raw :: raws' =>
      (tell opaque (pos + len raw) raw (head raws') - len (text_line raw), text_line raw)
      :: with_offsets opaque (pos + len raw) raws'
  end.

(** ** The index: its store *)

Definition MAFINDEX_VERSION : Z := 1.

(** A row of [offset_data]: [(bin, start, end, offset)]. *)
Abbreviation row := (Z * Z * Z * Z)%type.

(** A row of a query result: [(start, end, offset)]. *)
Abbreviation hit := (Z * Z * Z)%type.

(** The SQLite database behind [_db_con]: the two tables of the index, each
    [None] while it does not exist (any statement on it is then an
    [OperationalError]).  [meta_data] holds [(key, value)] rows of text;
    integers are unbounded here. *)
Record Store : Type := {
  meta_data : option (list (str * str));
  offset_data : option (list row)
}.

(** [ORDER BY start, end, offset ASC]. *)
Definition hit_le (a b : hit) : Prop :=
  let '(s1, e1, o1) := a in
  let '(s2, e2, o2) := b in
  s1 < s2 \/ (s1 = s2 /\ (e1 < e2 \/ (e1 = e2 /\ o1 <= o2))).

#[global] Instance hit_le_dec : RelDecision hit_le.
Proof. intros [[s1 e1] o1] [[s2 e2] o2]. simpl. apply _. Defined.

Definition hit_lt (a b : hit) : Prop := hit_le a b /\ a <> b.

(** [SELECT DISTINCT ... ORDER BY start, end, offset ASC] on the rows that
    passed the [WHERE] clause. *)
Definition order_distinct (hits : list hit) : list hit :=
  merge_sort hit_le (remove_dups hits).

Section MafIndex.

(** Modelled from the spec: [Seq.reverse_complement] of [Bio.Seq] is missing
    from the sources and the spec only names the operation
    ("reverse-complement every sequence's spliced text"), so it is a
    parameter; it may raise. *)
Variable reverse_complement : str -> result str.

(** The attributes of a [MafIndex] object: the name of the alignment file,
    its content behind the handle [_maf_fp], the reference sequence
    identifier, and the database. *)
Variable _maf_file : str.
Variable _maf_fp : str.
Variable _target_seqname : str.
Variable _db_con : Store.

(** [SELECT value FROM meta_data WHERE key = ...] then [.fetchone()[0]]:
    without a matching row [fetchone()] is [None], and subscripting it is a
    [TypeError]. *)
Definition select_meta (key : str) : result str :=
  match meta_data _db_con with
  | None => Raise OperationalError
  | Some rows =>
      match filter (fun kv => kv.1 = key) rows with
      | kv :: _ => Ok kv.2
      | [] => Raise TypeError
      end
  end.

(** [SELECT COUNT( * ) FROM offset_data]. *)
Definition select_count : result Z :=
  match offset_data _db_con with
  | None => Raise OperationalError
  | Some rows => Ok (len rows)
  end.

(** The [try] block of [__check_existing_db]. *)
Definition check_existing_db_try : result Z :=
  v ← select_meta (s2l "version");
  idx_version ← py_int v;
  if bool_decide (idx_version <> MAFINDEX_VERSION) then Raise ValueError else
  filename ← select_meta (s2l "filename");
  if bool_decide (filename <> _maf_file) then Raise ValueError else
  db_target ← select_meta (s2l "target_seqname");
  if bool_decide (db_target <> _target_seqname) then Raise ValueError else
  c ← select_meta (s2l "record_count");
  record_count ← py_int c;
  if bool_decide (record_count = -1) then Raise ValueError else
  records_found ← select_count;
  if bool_decide (records_found <> record_count) then Raise ValueError else
  Ok records_found.

(** [MafIndex.__check_existing_db]: a database error becomes a
    [ValueError]. *)
Definition __check_existing_db : result Z :=
  match check_existing_db_try with
  | Raise OperationalError | Raise ProgrammingError => Raise ValueError
  | r => r
  end.

(** ** The index: building it *)

(** The [line.startswith("s")] branch of [__maf_indexer] on a line of the
    block that began at [offset]: [None] when the line is another
    sequence's. *)
Definition index_s_line (offset : Z) (line : str) : result (option row) :=
  let line_split := split (strip line) in
  f1 ← item line_split 1;
  if bool_decide (f1 = _target_seqname) then
    f2 ← item line_split 2; start_ ← py_int f2;
    f3 ← item line_split 3; size_ ← py_int f3;
    f6 ← item line_split 6;
    if bool_decide (size_ <> len (ungap f6)) then Raise ValueError else
    let end_ := start_ + size_ - 1 in
    Ok (Some (Binning._ucscbin start_ (end_ + 1), start_, end_, offset))
  else Ok None.

(** [MafIndex.__maf_indexer] on the lines still to read, each with the
    value of [tell() - len(line)] after it was read.  [pending] is [Some offset] inside the inner loop, looking
    for the reference sequence of the block that began at [offset].  The
    result is the tuples yielded, and the exception that ended the
    generator, if any. *)
Fixpoint maf_indexer_from (pending : option Z) (lines : list (Z * str))
  : list row * option exn :=
  match lines with
  | [] =>
      match pending with
      | None => ([], None)
      | Some _ => ([], Some ValueError)
      end
  | (pos, line) :: lines' =>
      match pending with
      | None =>
          if startswith (s2l "a") line then maf_indexer_from (Some pos) lines'
          else maf_indexer_from None lines'
      | Some offset =>
          if bool_decide (strip line = []) || startswith (s2l "a") line
          then ([], Some ValueError)
          else if startswith (s2l "s") line then
            match index_s_line offset line with
            | Raise e => ([], Some e)
            | Ok None => maf_indexer_from (Some offset) lines'
            | Ok (Some entry) =>
                let '(entries, err) := maf_indexer_from None lines' in
                (entry :: entries, err)
            end
          else maf_indexer_from (Some offset) lines'
      end
  end.

(** What [tell()] returns on the file at the places where it is not the
    number of bytes read: the text layer of the library is not part of the
    sources, and its number is a parameter. *)
Variable tell_opaque : str -> Z -> Z.

Definition __maf_indexer : list row * option exn :=
  maf_indexer_from None (with_offsets (tell_opaque _maf_fp) 0 (rawlines _maf_fp)).

(** [str(n)] for an integer. *)
Definition str_of_Z (n : Z) : str := s2l (pretty n).

(** [__make_new_index] pastes the two names between single quotes into
    the text of its INSERT statements.  A name without a NUL character in
    which every apostrophe is doubled is the inside of one SQL string
    literal, whose value has one apostrophe for each pair; [None] for the
    other names. *)
Fixpoint sql_unquote (name : str) : option str :=
  match name with
  | [] => Some []
  | c :: name' =>
      if bool_decide (c = "'"%char) then
        match name' with
        | c' :: name'' =>
            if bool_decide (c' = "'"%char) then ("'"%char ::.) <$> sql_unquote name''
            else None
        | [] => None
        end
      else if bool_decide (c = "000"%char) then None
      else (c ::.) <$> sql_unquote name'
  end.

(** SQLite is not part of the sources: what [execute] does with the
    statement when the pasted name is not the inside of one string literal
    (the value it stores, or the exception it raises) is a parameter. *)
Variable sqlite_other : str -> result str.

(** The value stored by
    [execute("INSERT INTO meta_data (key, value) VALUES (..., '%s');" % name)]. *)
Definition insert_quoted (name : str) : result str :=
  match sql_unquote name with
  | Some value => Ok value
  | None => sqlite_other name
  end.

(** [MafIndex.__make_new_index] on an empty database: the store it leaves
    when the indexer runs to its end, and the record count. *)
Definition __make_new_index : result (Store * Z) :=
  target_value ← insert_quoted _target_seqname;
  filename_value ← insert_quoted _maf_file;
  let '(entries, err) := __maf_indexer in
  match err with
  | Some e => Raise e
  | None =>
      let insert_count := len entries in
      Ok ({| meta_data :=
               Some [(s2l "version", s2l "1");
                     (s2l "record_count", str_of_Z insert_count);
                     (s2l "target_seqname", target_value);
                     (s2l "filename", filename_value)];
             offset_data := Some entries |},
          insert_count)
  end.

(** ** The index: searching it *)

(** [MafIndex._get_record]: [seek] to the byte at [offset], then [next] on
    the fresh or suspended generator, which reads the lines from there. *)
Definition _get_record (offset : Z) : result Alignment :=
  if bool_decide (offset < 0) then Raise ValueError else
  r ← iter_run None iter_init (readlines (drop (Z.to_nat offset) _maf_fp));
  match r with
  | Some alignment => Ok alignment
  | None => Raise StopIteration
  end.

(** The [WHERE] clause of the query of [search]. *)
Definition where_clause (exonstart exonend : Z) (r : row) : bool :=
  let '(bin, rstart, rend, _) := r in
  bool_decide (bin ∈ Binning._region2bin exonstart exonend)
  && (bool_decide (exonstart <= rend <= exonend - 1)
      || bool_decide (rstart <= exonend - 1 <= rend)).

(** The rows the query returns for one exon. *)
Definition select_hits (exonstart exonend : Z) : result (list hit) :=
  match offset_data _db_con with
  | None => Raise OperationalError
  | Some rows =>
      Ok (order_distinct
            ((fun r : row => let '(_, rstart, rend, offset) := r in (rstart, rend, offset))
               <$> filter (fun r => where_clause exonstart exonend r = true) rows))
  end.

(** [record.annotations[...]]. *)
Definition annotation {A : Type} (field : Annotations -> A) (record : SeqRecord) : result A :=
  match annotations record with
  | Some anno => Ok (field anno)
  | None => Raise KeyError
  end.

(** The check of one fetched block against the row that led to it. *)
Fixpoint check_fetched (rec_start rec_end : Z) (recs : list SeqRecord) : result unit :=
  match recs with
  | [] => Ok tt
  | record :: recs' =>
      _ ← (if bool_decide (id record = _target_seqname) then
             start_ ← annotation start record;
             size_ ← annotation size record;
             let end_ := start_ + size_ - 1 in
             if bool_decide (start_ = rec_start /\ end_ = rec_end) then Ok tt
             else Raise ValueError
           else Ok tt);
      check_fetched rec_start rec_end recs'
  end.

(** The body of [for rec_start, rec_end, offset in rows]. *)
Definition fetch_hit (h : hit) : result Alignment :=
  let '(rec_start, rec_end, offset) := h in
  fetched ← _get_record offset;
  _ ← check_fetched rec_start rec_end (records fetched);
  Ok fetched.

(** What a generator did: the values it yielded, and the exception that
    ended it, if any. *)
Fixpoint fetch_hits (hits : list hit) : list Alignment * option exn :=
  match hits with
  | [] => ([], None)
  | h :: hits' =>
      match fetch_hit h with
      | Raise e => ([], Some e)
      | Ok fetched =>
          let '(more, err) := fetch_hits hits' in (fetched :: more, err)
      end
  end.

(** The loop [for exonstart, exonend in zip(starts, ends)] of [search] that
    queries the database. *)
Fixpoint search_exons (exons : list (Z * Z)) : list Alignment * option exn :=
  match exons with
  | [] => ([], None)
  | (exonstart, exonend) :: exons' =>
      match select_hits exonstart exonend with
      | Raise e => ([], Some e)
      | Ok rows =>
          match fetch_hits rows with
          | (found, Some e) => (found, Some e)
          | (found, None) =>
              let '(more, err) := search_exons exons' in (found ++ more, err)
          end
      end
  end.

(** [zip(starts, ends)]. *)
Definition exons_of (starts ends : list Z) : list (Z * Z) := zip starts ends.

(** [MafIndex.search], run to its end. *)
Definition search (starts ends : list Z) : list Alignment * option exn :=
  if bool_decide (length starts <> length ends) then ([], Some ValueError) else
  if bool_decide (Exists (fun x : Z * Z => x.2 - x.1 < 1) (exons_of starts ends))
  then ([], Some ValueError)
  else search_exons (exons_of starts ends).

End MafIndex.

(** ** The exon splicer *)

(** A loop whose body may raise. *)
Fixpoint fold_result {S A : Type} (body : S -> A -> result S) (s : S) (l : list A)
  : result S :=
  match l with
  | [] => Ok s
  | x :: l' => s' ← body s x; fold_result body s' l'
  end.

(** [d[key]] on a dictionary. *)
Definition getitem `{Countable K} {V : Type} (d : gmap K V) (key : K) : result V :=
  match d !! key with
  | Some v => Ok v
  | None => Raise KeyError
  end.

(** [split_by_position]: sequence name to (reference position to letters). *)
Abbreviation by_position := (gmap str (gmap Z str)).

(** [split_by_position[name][pos] = ""]. *)
Definition blank_position (name : str) (sbp : by_position) (pos : Z) : result by_position :=
  d ← getitem sbp name;
  Ok (<[name := <[pos := []]> d]> sbp).

(** [split_by_position[name][real_pos] += seqrec.seq[gapped_pos]]. *)
Definition append_letter (seqrec : SeqRecord) (real_pos : Z) (gapped_pos : nat)
    (sbp : by_position) : result by_position :=
  d ← getitem sbp (id seqrec);
  letters ← getitem d real_pos;
  letter ← item (seq seqrec) gapped_pos;
  Ok (<[id seqrec := <[real_pos := letters ++ [letter]]> d]> sbp).

(** The state of the loops of [get_spliced] over the fetched blocks. *)
Record splice_state : Type := {
  total_rec_length : Z;
  ref_first_strand : option Z;
  track_val : option ascii;
  split_by_position : by_position
}.

Section Splicer.

Variable reverse_complement : str -> result str.
Variable _maf_fp : str.
Variable _target_seqname : str.
Variable _db_con : Store.

(** The body of [for gapped_pos in range(0, rec_length)]; the state is
    [(track_val, real_pos, split_by_position)]. *)
Definition splice_column (multiseq : list SeqRecord) (rec_end : Z)
    (st : option ascii * Z * by_position) (gapped_pos : nat)
  : result (option ascii * Z * by_position) :=
  let '(tv, real_pos, sbp) := st in
  '(tv, sbp) ← fold_result
      (fun (acc : option ascii * by_position) seqrec =>
         let '(tv, sbp) := acc in
         tv ← (if bool_decide (id seqrec = _target_seqname)
               then letter ← item (seq seqrec) gapped_pos; Ok (Some letter)
               else Ok tv);
         sbp ← append_letter seqrec real_pos gapped_pos sbp;
         Ok (tv, sbp))
      (tv, sbp) multiseq;
  letter ← match tv with Some c => Ok c | None => Raise UnboundLocalError end;
  let real_pos :=
    if bool_decide (letter <> "-"%char /\ real_pos < rec_end) then real_pos + 1
    else real_pos in
  Ok (Some letter, real_pos, sbp).

(** The body of [for multiseq in fetched]. *)
Definition splice_block (st : splice_state) (multiseq : Alignment) : result splice_state :=
  match filter (fun seqrec => id seqrec = _target_seqname) (records multiseq) with
  | [] => Raise ValueError
  | seqrec :: _ =>
      strand_ ← match annotations seqrec with
                | Some anno => Ok (strand anno)
                | None => Raise ValueError
                end;
      first_strand ←
        match ref_first_strand st with
        | None =>
            if bool_decide (strand_ = 1 \/ strand_ = -1) then Ok strand_
            else Raise ValueError
        | Some s => if bool_decide (s <> strand_) then Raise ValueError else Ok s
        end;
      let rec_length := length (seq seqrec) in
      rec_start ← annotation start seqrec;
      ungapped_length ← annotation size seqrec;
      let rec_end := rec_start + ungapped_length - 1 in
      let total := total_rec_length st + ungapped_length in
      sbp ← fold_result
          (fun sbp seqrec' =>
             fold_result (blank_position (id seqrec')) sbp
               (py_range rec_start (rec_end + 1)))
          (split_by_position st) (records multiseq);
      '(tv, _, sbp) ← fold_result (splice_column (records multiseq) rec_end)
          (track_val st, rec_start, sbp) (List.seq 0 rec_length);
      Ok {| total_rec_length := total;
            ref_first_strand := Some first_strand;
            track_val := tv;
            split_by_position := sbp |}
  end.

(** The letters one sequence contributes at one reference position. *)
Definition spliced_at (seq_split : gmap Z str) (realpos_to_len : gmap Z Z)
    (filler_char : ascii) (real_pos : Z) : str :=
  match seq_split !! real_pos with
  | Some letters => letters
  | None =>
      match realpos_to_len !! real_pos with
      | Some n => str_mul filler_char n
      | None => [filler_char]
      end
  end.

(** The body of [for seqid in all_seqnames]: the spliced text of one
    sequence. *)
Definition splice_sequence (sbp : by_position) (realpos_to_len : gmap Z Z)
    (exons : list (Z * Z)) (seqid : str) : result (str * str) :=
  seq_split ← getitem sbp seqid;
  let filler_char := if bool_decide (seqid = _target_seqname) then "N"%char else "-"%char in
  Ok (seqid,
      concat (spliced_at seq_split realpos_to_len filler_char
                <$> (exons ≫= fun x : Z * Z => py_range x.1 x.2))).

(** [subseq[name]] on the dictionary kept as its list of items. *)
Definition subseq_item (subseq : list (str * str)) (name : str) : result str :=
  match filter (fun kv : str * str => kv.1 = name) subseq with
  | kv :: _ => Ok kv.2
  | [] => Raise KeyError
  end.

(** [get_spliced] from the union of sequence names to the spliced texts:
    the state after the loop over the fetched blocks, and [subseq] as its
    items in the order in which the set of names is iterated (Python
    leaves that order open; it is the order of [elements] here). *)
Definition splice_texts (fetched : list Alignment) (exons : list (Z * Z))
  : result (splice_state * list (str * str)) :=
  let all_seqnames : gset str :=
    list_to_set (fetched ≫= fun multiseq => id <$> records multiseq) in
  let sbp0 : by_position := gset_to_gmap ∅ all_seqnames in
  st ← fold_result splice_block
      {| total_rec_length := 0; ref_first_strand := None;
         track_val := None; split_by_position := sbp0 |} fetched;
  target_split ← getitem (split_by_position st) _target_seqname;
  if bool_decide (Z.of_nat (base.size target_split) <> total_rec_length st) then Raise ValueError else
  let realpos_to_len : gmap Z Z :=
    len <$> filter (fun kv : Z * str => 1 < len kv.2) target_split in
  subseq ← mapM (splice_sequence (split_by_position st) realpos_to_len exons)
                (elements all_seqnames);
  Ok (st, subseq).

(** The two checks of [get_spliced] on the spliced texts; the result is
    the reference strand and the texts. *)
Definition splice (fetched : list Alignment) (exons : list (Z * Z)) (expected_letters : Z)
  : result (Z * list (str * str)) :=
  '(st, subseq) ← splice_texts fetched exons;
  target_seq ← subseq_item subseq _target_seqname;
  if bool_decide (len (ungap target_seq) <> expected_letters) then Raise ValueError else
  let ref_subseq_len := len target_seq in
  if bool_decide (Exists (fun kv : str * str => len kv.2 <> ref_subseq_len) subseq)
  then Raise ValueError else
  first_strand ← match ref_first_strand st with
                 | Some s => Ok s
                 | None => Raise UnboundLocalError
                 end;
  Ok (first_strand, subseq).

(** The last loop of [get_spliced]: one record per spliced text, reverse
    complemented when the requested strand is not the reference's. *)
Definition strand_record (strand_ first_strand : Z) (kv : str * str) : result SeqRecord :=
  seq_ ← (if bool_decide (strand_ = first_strand) then Ok kv.2
          else reverse_complement kv.2);
  Ok {| seq := seq_; id := kv.1; annotations := None |}.

(** [sum([end - start for start, end in zip(starts, ends)])]. *)
Definition expected_letters_of (starts ends : list Z) : Z :=
  foldr Z.add 0 ((fun x : Z * Z => x.2 - x.1) <$> exons_of starts ends).

(** [MafIndex.get_spliced]. *)
Definition get_spliced (starts ends : list Z) (strand_ : Z) : result Alignment :=
  if bool_decide (~ (strand_ = 1 \/ strand_ = -1)) then Raise ValueError else
  match search _maf_fp _target_seqname _db_con starts ends with
  | (_, Some e) => Raise e
  | (fetched, None) =>
      let expected_letters := expected_letters_of starts ends in
      if bool_decide (length fetched = 0%nat) then
        MultipleSeqAlignment
          [{| seq := str_mul "N"%char expected_letters;
              id := _target_seqname; annotations := None |}]
      else
        '(first_strand, subseq) ← splice fetched (exons_of starts ends) expected_letters;
        result_multiseq ← mapM (strand_record strand_ first_strand) subseq;
        MultipleSeqAlignment result_multiseq
  end.

End Splicer.

(** ** Opening an index *)

(** [MafIndex.__init__]: [existing] is the database found at [sqlite_file],
    [None] when there is no such file (the index is then built into a new,
    empty database).  The result is the database the object holds and its
    [_record_count], which is what [__len__] returns. *)
Definition __init__ (tell_opaque : str -> Z -> Z) (sqlite_other : str -> result str)
    (existing : option Store) (maf_file maf_fp target_seqname : str)
  : result (Store * Z) :=
  match existing with
  | Some db =>
      record_count ← __check_existing_db maf_file target_seqname db;
      Ok (db, record_count)
  | None => __make_new_index maf_file maf_fp target_seqname tell_opaque sqlite_other
  end.

(** ** [MafWriter]

    What the writer gives to [self.handle.write] is the text it returns
    here. *)

(** ["%-40s" % s] and the like: [s] with spaces after it up to [width]. *)
Definition ljust (width : nat) (s : str) : str :=
  s ++ replicate (width - length s) " "%char.

(** ["%15s" % s] and the like: [s] with spaces before it up to [width]. *)
Definition rjust (width : nat) (s : str) : str :=
  replicate (width - length s) " "%char ++ s.

(** [s.replace(" ", "_")]. *)
Definition replace_spaces (s : str) : str :=
  (fun c => if bool_decide (c = " "%char) then "_"%char else c) <$> s.

(** [sep.join(parts)]. *)
Fixpoint join (sep : str) (parts : list str) : str :=
  match parts with
  | [] => []
  | [part] => part
  | part :: parts' => part ++ sep ++ join sep parts'
  end.

(** [MafWriter.write_header]. *)
Definition write_header : str :=
  s2l "##maf version=1 scoring=none" ++ ["010"%char]
  ++ s2l "# generated by Biopython" ++ ["010"%char; "010"%char].

(** [MafWriter._write_record]: [annotations.get(key, default)] takes the
    default when the record has no annotations. *)
Definition _write_record (record : SeqRecord) : str :=
  let strand_ :=
    match annotations record with
    | Some anno =>
        if bool_decide (strand anno = 1) then s2l "+"
        else if bool_decide (strand anno = -1) then s2l "-"
        else s2l "+"
    | None => s2l "+"
    end in
  let fields :=
    [s2l "s";
     ljust 40 (replace_spaces (id record));
     rjust 15 (str_of_Z (match annotations record with
                         | Some anno => start anno
                         | None => 0
                         end));
     rjust 5 (str_of_Z (match annotations record with
                        | Some anno => size anno
                        | None => len (ungap (seq record))
                        end));
     strand_;
     rjust 15 (str_of_Z (match annotations record with
                         | Some anno => srcSize anno
                         | None => 0
                         end));
     seq record] in
  join (s2l " ") fields ++ ["010"%char].

(** [MafWriter.write_alignment]: the text written and the number of
    records.  [has_annotations] tells whether the alignment object has the
    attribute [_annotations] ([MafIterator] sets it; without it the
    [AttributeError] branch writes the default score). *)
Definition write_alignment (has_annotations : bool) (alignment : Alignment)
  : result (str * Z) :=
  if bool_decide (1 < base.size (list_to_set (C := gset Z)
                                   ((fun x => len (seq x)) <$> records alignment)))%nat
  then Raise ValueError else
  let anno :=
    if has_annotations then
      join (s2l " ")
        ((fun kv : str * str => kv.1 ++ s2l "=" ++ kv.2)
           <$> filter (fun kv : str * str => kv.1 = s2l "score" \/ kv.1 = s2l "pass")
                 (map_to_list (_annotations alignment)))
    else s2l "score=0.00" in
  Ok (s2l "a " ++ anno ++ ["010"%char]
      ++ concat (_write_record <$> records alignment)
      ++ ["010"%char],
      len (records alignment)).

(** ** Vocabulary of the statements *)



(** The value stored under a metadata key, when the table and the row
    exist. *)
Definition stored (db : Store) (key : str) : option str :=
  rows ← meta_data db;
  kv ← head (filter (fun kv : str * str => kv.1 = key) rows);
  Some kv.2.

(** The same value read as an integer, when it is one. *)
Definition stored_int (db : Store) (key : str) : option Z :=
  v ← stored db key;
  match py_int v with
  | Ok n => Some n
  | Raise _ => None
  end.

(** The number of stored entries, when the table exists. *)
Definition stored_entries (db : Store) : option Z := len <$> offset_data db.

(** The five ways in which an existing index is refused.  A value that is
    absent or unreadable differs from every requested one. *)
Definition version_differs (db : Store) : Prop :=
  stored_int db (s2l "version") <> Some MAFINDEX_VERSION.

Definition identity_differs (maf_file target : str) (db : Store) : Prop :=
  stored db (s2l "filename") <> Some maf_file
  \/ stored db (s2l "target_seqname") <> Some target.

Definition build_unfinished (db : Store) : Prop :=
  stored_int db (s2l "record_count") = Some (-1).

Definition count_differs (db : Store) : Prop :=
  forall n, ~ (stored_int db (s2l "record_count") = Some n /\ stored_entries db = Some n).

(** The rows the query of [search] returns for one exon; none when the
    table does not exist. *)
Definition exon_hits (db : Store) (exon : Z * Z) : list hit :=
  match select_hits db exon.1 exon.2 with
  | Ok rows => rows
  | Raise _ => []
  end.

(** The span [(start, end)], end included, of the first record of a block
    that carries the reference identifier. *)
Definition ref_span (target : str) (block : Alignment) : option (Z * Z) :=
  r ← head (filter (fun r => id r = target) (records block));
  anno ← annotations r;
  Some (start anno, start anno + size anno - 1).

(** The reference strand of the first fetched block. *)
Definition first_ref_strand (target : str) (fetched : list Alignment) : option Z :=
  block ← head fetched;
  r ← head (filter (fun r => id r = target) (records block));
  anno ← annotations r;
  Some (strand anno).

(** A spliced text as the record [get_spliced] returns for it when the
    strands agree. *)
Definition spliced_record (kv : str * str) : SeqRecord :=
  {| seq := kv.2; id := kv.1; annotations := None |}.

(** A returned record with its sequence reverse complemented. *)
Definition reverse_complement_record (reverse_complement : str -> result str)
    (r : SeqRecord) : result SeqRecord :=
  seq_ ← reverse_complement (seq r);
  Ok {| seq := seq_; id := id r; annotations := None |}.

(** The inclusive span [rstart, rend] of a stored entry shares a position
    with the query interval [exonstart, exonend). *)
Definition overlaps (exon : Z * Z) (r : row) : Prop :=
  let '(_, rstart, rend, _) := r in
  exon.1 <= rend /\ rstart <= exon.2 - 1.



(** Every carriage return of the file is followed by a line feed. *)
Fixpoint no_lone_cr (content : str) : bool :=
  match content with
  | [] => true
  | c :: content' =>
      (negb (bool_decide (c = "013"%char))
       || bool_decide (head content' = Some "010"%char))
      && no_lone_cr content'
  end.

(** The offset column of an index row. *)
Definition row_offset (r : row) : Z := r.2.

(** A record as [MafIterator] reads it back from the line
    [_write_record] writes for it: spaces of the identifier replaced, the
    defaults in place of missing annotations, and a strand other than -1
    read as 1. *)
Definition read_back (record : SeqRecord) : SeqRecord :=
  {| seq := seq record;
     id := replace_spaces (id record);
     annotations :=
       Some match annotations record with
            | Some anno =>
                {| start := start anno; size := size anno;
                   strand := if bool_decide (strand anno = -1) then -1 else 1;
                   srcSize := srcSize anno |}
            | None =>
                {| start := 0; size := len (ungap (seq record));
                   strand := 1; srcSize := 0 |}
            end |}.

(** A record whose line can be read back: an identifier that is not empty
    and has no whitespace but spaces, and a text that is not empty and has
    neither whitespace nor dots. *)
Definition writable (record : SeqRecord) : Prop :=
  id record <> []
  /\ Forall (fun c => c = " "%char \/ is_space c = false) (id record)
  /\ seq record <> []
  /\ Forall (fun c => is_space c = false) (seq record)
  /\ "."%char ∉ seq record.

(** ** Sample data

    A two-block alignment file, the index built from it, and parser states,
    used to run the definitions above. *)

Module Sample.

Definition nl : string := String "010"%char EmptyString.

(** Inside a block, before any sequence line. *)
Definition in_block : iter_state :=
  {| in_a_bundle := true;
     bundle_annotations := {[ s2l "score" := s2l "1" ]};
     bundle_records := [] |}.

Definition ref_record : SeqRecord :=
  {| seq := s2l "ACGTA"; id := s2l "ref";
     annotations := Some {| start := 100; size := 5; strand := 1; srcSize := 1000 |} |}.

(** Inside a block, after its first sequence line. *)
Definition after_ref : iter_state :=
  {| in_a_bundle := true;
     bundle_annotations := {[ s2l "score" := s2l "1" ]};
     bundle_records := [ref_record] |}.

Definition maf_name : str := s2l "sample.maf".

Definition maf_text : str :=
  s2l ("a score=1" ++ nl
       ++ "s ref 100 5 + 1000 ACGTA" ++ nl
       ++ "s alt 200 5 + 500 ACCTA" ++ nl
       ++ nl
       ++ "a score=2" ++ nl
       ++ "s ref 200 5 + 1000 AC-GTA" ++ nl
       ++ "s alt 300 6 - 500 ACCCTA" ++ nl
       ++ nl)%string.

Definition target : str := s2l "ref".

(** The index [__make_new_index] builds from the sample file. *)
Definition index : Store :=
  {| meta_data :=
       Some [(s2l "version", s2l "1");
             (s2l "record_count", s2l "2");
             (s2l "target_seqname", target);
             (s2l "filename", maf_name)];
     offset_data := Some [(585, 100, 104, 0); (585, 200, 204, 60)] |}.

(** A stand-in for the missing [Seq.reverse_complement]: the complement
    of the four unambiguous DNA letters, other symbols kept, reversed. *)
Definition complement (c : ascii) : ascii :=
  if bool_decide (c = "A"%char) then "T"%char
  else if bool_decide (c = "T"%char) then "A"%char
  else if bool_decide (c = "C"%char) then "G"%char
  else if bool_decide (c = "G"%char) then "C"%char
  else c.

Definition dna_reverse_complement (s : str) : result str :=
  Ok (reverse (complement <$> s)).

(** What [get_spliced] returns on the sample file for the exons
    [100, 103) and [200, 205) on strand 1. *)
Definition spliced : Alignment :=
  {| records := [{| seq := s2l "ACCACCCTA"; id := s2l "alt"; annotations := None |};
                 {| seq := s2l "ACGAC-GTA"; id := s2l "ref"; annotations := None |}];
     _annotations := ∅ |}.

(** A file whose only block has a reference row without letters
    (size 0, text of gaps only), and the index built from it. *)
Definition gap_text : str :=
  s2l ("a score=1" ++ nl
       ++ "s ref 10 0 + 1000 --" ++ nl
       ++ "s alt 5 2 + 500 AC" ++ nl
       ++ nl)%string.

Definition gap_index : Store :=
  {| meta_data :=
       Some [(s2l "version", s2l "1");
             (s2l "record_count", s2l "1");
             (s2l "target_seqname", target);
             (s2l "filename", maf_name)];
     offset_data := Some [(585, 10, 9, 0)] |}.

(** A stand-in for SQLite on the statements whose pasted name is not the
    inside of one string literal: a syntax error. *)
Definition sqlite_rejects (name : str) : result str := Raise OperationalError.

(** A stand-in for the numbers of [tell()] that are not positions: the
    number of bytes read with bit 64 set. *)
Definition tell_cookie (content : str) (pos : Z) : Z := pos + 2 ^ 64.

(** The sample file with the line ends of a Windows text file, and the
    index built from it. *)
Definition crlf : string := String "013"%char (String "010"%char EmptyString).

Definition crlf_text : str :=
  s2l ("a score=1" ++ crlf
       ++ "s ref 100 5 + 1000 ACGTA" ++ crlf
       ++ "s alt 200 5 + 500 ACCTA" ++ crlf
       ++ crlf
       ++ "a score=2" ++ crlf
       ++ "s ref 200 5 + 1000 AC-GTA" ++ crlf
       ++ "s alt 300 6 - 500 ACCCTA" ++ crlf
       ++ crlf)%string.


(** A file whose only block lies beyond position 2^30 of the reference
    sequence, across a multiple of 2^26, and the index built from it. *)
Definition high_text : str :=
  s2l ("a score=1" ++ nl
       ++ "s ref 1140850687 2 + 2000000000 AC" ++ nl
       ++ "s alt 5 2 + 500 AC" ++ nl
       ++ nl)%string.

Definition high_index : Store :=
  {| meta_data :=
       Some [(s2l "version", s2l "1");
             (s2l "record_count", s2l "1");
             (s2l "target_seqname", target);
             (s2l "filename", maf_name)];
     offset_data := Some [(2, 1140850687, 1140850688, 0)] |}.

(** A file whose first block starts with a line that ends with a carriage
    return alone. *)
Definition lone_cr_text : str :=
  s2l ("a score=1" ++ String "013"%char EmptyString
       ++ "s ref 100 5 + 1000 ACGTA" ++ nl
       ++ nl
       ++ "a score=2" ++ nl
       ++ "s ref 200 5 + 1000 AC-GTA" ++ nl
       ++ nl)%string.

End Sample.

(** ** Theorems: binning *)

Lemma elem_of_py_range lo hi k : k ∈ py_range lo hi <-> lo <= k < hi.
Proof. unfold py_range. rewrite elem_of_seqZ. lia. Qed.

Module BinningFacts.
Import Binning.

Lemma region2bin_spec s e k :
  k ∈ _region2bin s e <->
    k = 0 \/ k = 1
    \/ 1 + Z.shiftr s 26 <= k < 2 + Z.shiftr (e - 1) 26
    \/ 9 + Z.shiftr s 23 <= k < 10 + Z.shiftr (e - 1) 23
    \/ 73 + Z.shiftr s 20 <= k < 74 + Z.shiftr (e - 1) 20
    \/ 585 + Z.shiftr s 17 <= k < 586 + Z.shiftr (e - 1) 17.
Proof.
  unfold _region2bin. cbv zeta.
  rewrite elem_of_list_to_set, !elem_of_app, !elem_of_py_range.
  rewrite elem_of_cons, list_elem_of_singleton. tauto.
Qed.

Lemma ucscbin_unfold s e :
  _ucscbin s e =
    if decide (Z.shiftr s 17 = Z.shiftr (e - 1) 17) then 585 + Z.shiftr s 17
    else if decide (Z.shiftr s 20 = Z.shiftr (e - 1) 20) then 73 + Z.shiftr s 20
    else if decide (Z.shiftr s 23 = Z.shiftr (e - 1) 23) then 9 + Z.shiftr s 23
    else if decide (Z.shiftr s 26 = Z.shiftr (e - 1) 26) then 1 + Z.shiftr s 26
    else if decide (Z.shiftr s 29 = Z.shiftr (e - 1) 29) then Z.shiftr s 29
    else 0.
Proof.
  unfold _ucscbin, bin_offsets. cbn [_ucscbin_loop].
  unfold _bin_first_shift, _bin_next_shift.
  rewrite !Z.shiftr_shiftr by lia.
  change (17 + 3 + 3 + 3 + 3) with 29. change (17 + 3 + 3 + 3) with 26.
  change (17 + 3 + 3) with 23. change (17 + 3) with 20.
  repeat case_decide; lia.
Qed.

Lemma shiftr_le_mono a b n : 0 <= n -> a <= b -> Z.shiftr a n <= Z.shiftr b n.
Proof.
  intros Hn Hab. rewrite !Z.shiftr_div_pow2 by done.
  apply Z.div_le_mono; [apply Z.pow_pos_nonneg; lia | done].
Qed.

Lemma shiftr_coarser_le a n : 0 <= a -> 0 <= n -> Z.shiftr a (n + 3) <= Z.shiftr a n.
Proof.
  intros Ha Hn. rewrite <- Z.shiftr_shiftr by lia.
  assert (0 <= Z.shiftr a n) by (apply Z.shiftr_nonneg; done).
  rewrite (Z.shiftr_div_pow2 _ 3) by lia.
  apply Z.div_le_upper_bound; lia.
Qed.

Lemma shiftr_coarser_eq a b n :
  0 <= n -> Z.shiftr a n = Z.shiftr b n -> Z.shiftr a (n + 3) = Z.shiftr b (n + 3).
Proof. intros Hn Heq. rewrite <- !Z.shiftr_shiftr by lia. by rewrite Heq. Qed.

(** Where the two functions part: the coarsest level of [_ucscbin] (shift 29)
    has no range of its own in [_region2bin], only the fixed bins 0 and 1. *)
Lemma ucscbin_in_region2bin_iff s e :
  0 <= s < e ->
  _ucscbin s e ∈ _region2bin s e <->
    ~ (Z.shiftr s 26 <> Z.shiftr (e - 1) 26
       /\ Z.shiftr s 29 = Z.shiftr (e - 1) 29
       /\ 2 <= Z.shiftr s 29).
Proof.
  intros Hse.
  pose proof (shiftr_le_mono s (e - 1) 17 ltac:(lia) ltac:(lia)) as M17.
  pose proof (shiftr_le_mono s (e - 1) 20 ltac:(lia) ltac:(lia)) as M20.
  pose proof (shiftr_le_mono s (e - 1) 23 ltac:(lia) ltac:(lia)) as M23.
  pose proof (shiftr_le_mono s (e - 1) 26 ltac:(lia) ltac:(lia)) as M26.
  pose proof (shiftr_coarser_le s 17 ltac:(lia) ltac:(lia)) as L17.
  pose proof (shiftr_coarser_le s 20 ltac:(lia) ltac:(lia)) as L20.
  pose proof (shiftr_coarser_le s 23 ltac:(lia) ltac:(lia)) as L23.
  pose proof (shiftr_coarser_le s 26 ltac:(lia) ltac:(lia)) as L26.
  pose proof (shiftr_coarser_eq s (e - 1) 17 ltac:(lia)) as E17.
  pose proof (shiftr_coarser_eq s (e - 1) 20 ltac:(lia)) as E20.
  pose proof (shiftr_coarser_eq s (e - 1) 23 ltac:(lia)) as E23.
  change (17 + 3) with 20 in *. change (20 + 3) with 23 in *.
  change (23 + 3) with 26 in *. change (26 + 3) with 29 in *.
  assert (H29 : 0 <= Z.shiftr s 29) by (apply Z.shiftr_nonneg; lia).
  rewrite ucscbin_unfold, region2bin_spec.
  repeat case_decide; split; intros; lia.
Qed.

(** C1, where the code meets it: for every interval [s, e) with
    0 <= s < e <= 2^30, the smallest containing bin [_ucscbin s e] is one
    of the candidate bins [_region2bin s e]. *)
Theorem ucscbin_in_region2bin s e :
  0 <= s < e -> e <= 2 ^ 30 ->
  _ucscbin s e ∈ _region2bin s e.
Proof.
  intros Hse He. apply ucscbin_in_region2bin_iff; [done|].
  intros (_ & Heq & H2).
  assert (Z.shiftr (e - 1) 29 <= 1).
  { rewrite Z.shiftr_div_pow2 by lia.
    apply Z.lt_succ_r. apply Z.div_lt_upper_bound; lia. }
  lia.
Qed.

Lemma ucscbin_in_region2bin_witness :
  _ucscbin 100 105 ∈ _region2bin 100 105.
Proof. apply ucscbin_in_region2bin; lia. Defined.

(** C1 fails on the code beyond 2^30: the interval
    [2^30, 2^30 + 2^26 + 1) straddles a 2^26 boundary inside the third
    2^29 chunk, so [_ucscbin] answers 2, which [_region2bin], whose
    docstring promises the bins a region may belong to, never lists. *)
Lemma ucscbin_not_in_region2bin :
  0 <= 2 ^ 30 < 2 ^ 30 + 2 ^ 26 + 1
  /\ _ucscbin (2 ^ 30) (2 ^ 30 + 2 ^ 26 + 1) = 2
  /\ _ucscbin (2 ^ 30) (2 ^ 30 + 2 ^ 26 + 1)
       ∉ _region2bin (2 ^ 30) (2 ^ 30 + 2 ^ 26 + 1).
Proof.
  split; [lia|]. split; [reflexivity|].
  rewrite ucscbin_in_region2bin_iff by lia.
  intros H. apply H. vm_compute. repeat split; congruence.
Qed.

(** What the missing bin costs.  The only block of [Sample.high_text]
    holds the positions 1140850687 and 1140850688 of the reference
    sequence; the builder files it under bin 2, [search] for exactly these
    positions yields nothing, and [get_spliced] answers with the filler as
    if the file had no alignment there. *)
Lemma high_block_not_found (reverse_complement sqlite_other : str -> result str)
    (tell_opaque : str -> Z -> Z) :
  __make_new_index Sample.maf_name Sample.high_text Sample.target tell_opaque sqlite_other
  = Ok (Sample.high_index, 1)
  /\ overlaps (1140850687, 1140850689) (2, 1140850687, 1140850688, 0)
  /\ (_ucscbin 1140850687 1140850689 ∉ _region2bin 1140850687 1140850689)
  /\ search Sample.high_text Sample.target Sample.high_index
       [1140850687] [1140850689]
     = ([], None)
  /\ get_spliced reverse_complement Sample.high_text Sample.target Sample.high_index
       [1140850687] [1140850689] 1
     = Ok {| records := [{| seq := s2l "NN"; id := Sample.target; annotations := None |}];
             _annotations := ∅ |}.
Proof.
  split; [vm_compute; reflexivity|]. split; [unfold overlaps; cbn; lia|].
  split; [rewrite ucscbin_in_region2bin_iff by lia; intros H; apply H; vm_compute;
          repeat split; congruence|].
  split; vm_compute; reflexivity.
Qed.

End BinningFacts.

(** ** Theorems: the block parser *)

Module ParserFacts.

Lemma item_lt {A : Type} (l : list A) (i : nat) :
  (i < length l)%nat -> exists x, l !! i = Some x /\ item l i = Ok x.
Proof.
  intros Hi. destruct (lookup_lt_is_Some_2 l i Hi) as [x Hx].
  exists x. unfold item. by rewrite Hx.
Qed.

(** With exactly seven fields and integer coordinates, only a dot in the
    text of a first sequence line can still make an [s] line fail. *)
Lemma parse_s_line_fields recs line f0 f1 f2 f3 f4 f5 text a b c :
  split (strip line) = [f0; f1; f2; f3; f4; f5; text] ->
  py_int f2 = Ok a -> py_int f3 = Ok b -> py_int f5 = Ok c ->
  parse_s_line recs line =
    let anno := {| start := a; size := b;
                   strand := if bool_decide (f4 = s2l "-") then -1 else 1;
                   srcSize := c |} in
    if bool_decide ("."%char ∈ text) then
      match recs with
      | [] => Raise ValueError
      | first :: _ =>
          Ok {| seq := expand_dots text (seq first); id := f1; annotations := Some anno |}
      end
    else Ok {| seq := text; id := f1; annotations := Some anno |}.
Proof.
  intros Hsplit Ha Hb Hc. unfold parse_s_line. rewrite Hsplit. cbn.
  rewrite Ha, Hb, Hc. cbn.
  rewrite bool_decide_eq_false_2 by (intros H; by apply H).
  assert (Hstrand : (if bool_decide (f4 = ["+"%char]) then 1
                     else if bool_decide (f4 = ["-"%char]) then -1 else 1)
                    = if bool_decide (f4 = ["-"%char]) then -1 else 1).
  { destruct (decide (f4 = ["+"%char])) as [->|Hne].
    - reflexivity.
    - by rewrite (bool_decide_eq_false_2 _ Hne). }
  rewrite Hstrand.
  destruct (bool_decide ("."%char ∈ text)); [destruct recs|]; reflexivity.
Qed.

(** An [s] line never fails with anything but a [ValueError]. *)
Lemma parse_s_line_raises recs line e :
  parse_s_line recs line = Raise e -> e = ValueError.
Proof.
  unfold parse_s_line. case_bool_decide as Hlen; [congruence|].
  destruct (split (strip line)) as [|f0 [|f1 [|f2 [|f3 [|f4 [|f5 [|text [|]]]]]]]];
    try discriminate Hlen.
  cbn. unfold py_int.
  repeat (match goal with
          | |- context [match ?x with _ => _ end] => destruct x eqn:?
          end; cbn; try congruence).
Qed.

(** At the end of the input a turn of the loop yields, returns or raises:
    it never goes round again. *)
Lemma iter_step_eof seq_count st st' :
  iter_step seq_count st [] <> Ok (Continue st').
Proof.
  unfold iter_step. destruct (in_a_bundle st); cbn; [|congruence].
  destruct seq_count as [n|]; cbn.
  - case_bool_decide; cbn; [|congruence].
    destruct (MultipleSeqAlignment (bundle_records st)); cbn; congruence.
  - destruct (MultipleSeqAlignment (bundle_records st)); cbn; congruence.
Qed.

(** C3 (amended): inside a block, a line that does not start with "s" is
    ignored when it starts with "i", "e", "q" or "#", and raises a
    [ValueError] when it starts with none of them and is not blank. *)
Theorem in_bundle_other_line seq_count st line :
  in_a_bundle st = true ->
  startswith (s2l "s") line = false ->
  (startswith (s2l "i") line || startswith (s2l "e") line
   || startswith (s2l "q") line || startswith (s2l "#") line = true ->
   iter_step seq_count st line = Ok (Continue st))
  /\ (startswith (s2l "i") line || startswith (s2l "e") line
      || startswith (s2l "q") line || startswith (s2l "#") line = false ->
      strip line <> [] ->
      iter_step seq_count st line = Raise ValueError).
Proof.
  intros Hin Hs. unfold iter_step. rewrite Hin, Hs.
  destruct (startswith (s2l "i") line), (startswith (s2l "e") line),
    (startswith (s2l "q") line), (startswith (s2l "#") line);
    cbn; split; intros H; try done.
  intros Hblank. by rewrite bool_decide_eq_false_2.
Qed.

Lemma in_bundle_other_line_witness :
  iter_step None Sample.after_ref (s2l "i ref N 0 C 0") = Ok (Continue Sample.after_ref)
  /\ iter_step None Sample.after_ref (s2l "track name=x") = Raise ValueError.
Proof.
  split.
  - apply (in_bundle_other_line None Sample.after_ref (s2l "i ref N 0 C 0"));
      reflexivity.
  - apply (in_bundle_other_line None Sample.after_ref (s2l "track name=x"));
      [reflexivity | reflexivity | reflexivity | discriminate].
Defined.

(** C3 (as stated) fails: an "i" line inside a block is neither a sequence
    line, nor a comment, nor blank, and the parser passes over it. *)
Lemma in_bundle_i_line_ignored :
  let line := s2l "i ref N 0 C 0" in
  in_a_bundle Sample.after_ref = true
  /\ startswith (s2l "s") line = false
  /\ startswith (s2l "#") line = false
  /\ strip line <> []
  /\ iter_step None Sample.after_ref line = Ok (Continue Sample.after_ref)
  /\ iter_step None Sample.after_ref line <> Raise ValueError.
Proof. cbv zeta. repeat split; try reflexivity; discriminate. Qed.

(** C9: a first sequence line whose text holds a dot raises a [ValueError]
    and adds no record; on a later sequence line the dots are replaced by
    the first record's letters, and a text without dots is kept as it is. *)
Theorem dot_in_sequence_line seq_count st line f0 f1 f2 f3 f4 f5 text :
  in_a_bundle st = true ->
  startswith (s2l "s") line = true ->
  split (strip line) = [f0; f1; f2; f3; f4; f5; text] ->
  (bundle_records st = [] -> "."%char ∈ text ->
   iter_step seq_count st line = Raise ValueError)
  /\ (forall a b c,
        py_int f2 = Ok a -> py_int f3 = Ok b -> py_int f5 = Ok c ->
        (forall first rest, bundle_records st = first :: rest ->
           exists r,
             iter_step seq_count st line
             = Ok (Continue {| in_a_bundle := true;
                               bundle_annotations := bundle_annotations st;
                               bundle_records := bundle_records st ++ [r] |})
             /\ seq r = if bool_decide ("."%char ∈ text)
                        then expand_dots text (seq first) else text)
        /\ (bundle_records st = [] -> "."%char ∉ text ->
            exists r,
              iter_step seq_count st line
              = Ok (Continue {| in_a_bundle := true;
                                bundle_annotations := bundle_annotations st;
                                bundle_records := [r] |})
              /\ seq r = text)).
Proof.
  intros Hin Hs Hsplit. unfold iter_step. rewrite Hin, Hs. split.
  - intros Hrecs Hdot. rewrite Hrecs.
    destruct (parse_s_line [] line) as [e|r] eqn:Hparse.
    + by rewrite (parse_s_line_raises _ _ _ Hparse).
    + exfalso. revert Hparse. unfold parse_s_line. rewrite Hsplit. cbn.
      destruct (py_int f2); cbn; [discriminate|].
      destruct (py_int f3); cbn; [discriminate|].
      destruct (py_int f5); cbn; [discriminate|].
      by rewrite (bool_decide_eq_true_2 _ Hdot).
  - intros a b c Ha Hb Hc. split.
    + intros first rest Hrecs.
      rewrite (parse_s_line_fields _ _ _ _ _ _ _ _ _ _ _ _ Hsplit Ha Hb Hc).
      rewrite Hrecs. cbv zeta.
      destruct (bool_decide ("."%char ∈ text)); cbn; eexists; split; reflexivity.
    + intros Hrecs Hdot.
      rewrite (parse_s_line_fields _ _ _ _ _ _ _ _ _ _ _ _ Hsplit Ha Hb Hc).
      rewrite Hrecs. cbv zeta. rewrite (bool_decide_eq_false_2 _ Hdot). cbn.
      eexists; split; reflexivity.
Qed.

Lemma dot_in_sequence_line_witness :
  iter_step None Sample.in_block (s2l "s ref 100 5 + 1000 AC.TA") = Raise ValueError.
Proof.
  apply (dot_in_sequence_line None Sample.in_block (s2l "s ref 100 5 + 1000 AC.TA")
           (s2l "s") (s2l "ref") (s2l "100") (s2l "5") (s2l "+") (s2l "1000")
           (s2l "AC.TA"));
    [reflexivity | reflexivity | reflexivity | reflexivity | compute_done].
Defined.

(** C10: a sequence line whose strand field is neither "+" nor "-" is
    accepted, its record has strand 1, and the parser does exactly what it
    does on the same line with "+" as its strand field. *)
Theorem other_strand_is_plus seq_count st line f0 f1 f2 f3 f4 f5 text a b c :
  in_a_bundle st = true ->
  startswith (s2l "s") line = true ->
  split (strip line) = [f0; f1; f2; f3; f4; f5; text] ->
  py_int f2 = Ok a -> py_int f3 = Ok b -> py_int f5 = Ok c ->
  ("."%char ∈ text -> bundle_records st <> []) ->
  f4 <> s2l "+" -> f4 <> s2l "-" ->
  (exists r,
     iter_step seq_count st line
     = Ok (Continue {| in_a_bundle := true;
                       bundle_annotations := bundle_annotations st;
                       bundle_records := bundle_records st ++ [r] |})
     /\ id r = f1
     /\ annotations r = Some {| start := a; size := b; strand := 1; srcSize := c |})
  /\ (forall line',
        startswith (s2l "s") line' = true ->
        split (strip line') = [f0; f1; f2; f3; s2l "+"; f5; text] ->
        iter_step seq_count st line' = iter_step seq_count st line).
Proof.
  intros Hin Hs Hsplit Ha Hb Hc Hdot Hplus Hminus.
  assert (Hparse : parse_s_line (bundle_records st) line =
            if bool_decide ("."%char ∈ text) then
              match bundle_records st with
              | [] => Raise ValueError
              | first :: _ =>
                  Ok {| seq := expand_dots text (seq first); id := f1;
                        annotations := Some {| start := a; size := b; strand := 1;
                                               srcSize := c |} |}
              end
            else Ok {| seq := text; id := f1;
                       annotations := Some {| start := a; size := b; strand := 1;
                                              srcSize := c |} |}).
  { rewrite (parse_s_line_fields _ _ _ _ _ _ _ _ _ _ _ _ Hsplit Ha Hb Hc).
    cbv zeta. by rewrite (bool_decide_eq_false_2 _ Hminus). }
  split.
  - unfold iter_step. rewrite Hin, Hs, Hparse.
    case_bool_decide as Hd.
    + destruct (bundle_records st) as [|first rest] eqn:Hrecs.
      * by destruct (Hdot Hd).
      * cbn. eexists; repeat split; reflexivity.
    + cbn. eexists; repeat split; reflexivity.
  - intros line' Hs' Hsplit'. unfold iter_step. rewrite Hin, Hs, Hs', Hparse.
    rewrite (parse_s_line_fields _ _ _ _ _ _ _ _ _ _ _ _ Hsplit' Ha Hb Hc).
    reflexivity.
Qed.

Lemma other_strand_is_plus_witness :
  exists r,
    iter_step None Sample.in_block (s2l "s ref 100 5 ? 1000 ACGTA")
    = Ok (Continue {| in_a_bundle := true;
                      bundle_annotations := bundle_annotations Sample.in_block;
                      bundle_records := bundle_records Sample.in_block ++ [r] |})
    /\ id r = s2l "ref"
    /\ annotations r = Some {| start := 100; size := 5; strand := 1; srcSize := 1000 |}.
Proof.
  apply (other_strand_is_plus None Sample.in_block (s2l "s ref 100 5 ? 1000 ACGTA")
           (s2l "s") (s2l "ref") (s2l "100") (s2l "5") (s2l "?") (s2l "1000")
           (s2l "ACGTA") 100 5 1000);
    try reflexivity; try discriminate.
  intros Hdot. exfalso. revert Hdot. compute_done.
Defined.

End ParserFacts.

(** ** Theorems: building the index *)

Module IndexerFacts.


(** Outside a block, a line that does not start one yields nothing. *)
Lemma maf_indexer_outside target p line lines :
  startswith (s2l "a") line = false ->
  maf_indexer_from target None ((p, line) :: lines)
  = maf_indexer_from target None lines.
Proof. intros Ha. cbn [maf_indexer_from]. by rewrite Ha. Qed.





(** A piece is not empty, and a piece that begins with a carriage return
    is a blank line. *)
Lemma rawlines_from_pieces cur content :
  (last cur = Some "013"%char -> cur = ["013"%char]) ->
  Forall (fun raw => raw <> [] /\ (head raw = Some "013"%char -> text_line raw = ["010"%char]))
    (rawlines_from cur content).
Proof.
  assert (Hrev : forall c l, reverse (c :: l) <> @nil ascii).
  { intros c l H. apply (f_equal length) in H. rewrite length_reverse in H. done. }
  revert cur. induction content as [|c content IH]; intros cur Hcur;
    cbn [rawlines_from].
  - destruct cur as [|c cur]; [constructor|]. constructor; [|constructor].
    split; [apply Hrev|]. rewrite head_reverse. intros Hlast.
    by rewrite (Hcur Hlast).
  - case_bool_decide as Hlf; [|case_bool_decide as Hhead].
    + subst c. constructor; [|by apply IH]. split; [apply Hrev|].
      rewrite head_reverse. destruct cur as [|c cur]; [done|].
      rewrite last_cons_cons. intros Hlast. by rewrite (Hcur Hlast).
    + constructor.
      * destruct cur as [|c' cur]; [done|]. split; [apply Hrev|].
        rewrite head_reverse. intros Hlast. by rewrite (Hcur Hlast).
      * apply IH. cbn. by intros [= ->].
    + apply IH. destruct cur as [|c' cur].
      * cbn. by intros [= ->].
      * rewrite last_cons_cons. intros Hlast. specialize (Hcur Hlast).
        rewrite Hcur in Hhead. done.
Qed.

Lemma rawlines_pieces content :
  Forall (fun raw => raw <> [] /\ (head raw = Some "013"%char -> text_line raw = ["010"%char]))
    (rawlines content).
Proof. by apply rawlines_from_pieces. Qed.

(** A line is shorter than its piece by one character exactly when the
    piece ends with a carriage return and a line feed. *)
Lemma text_line_len raw :
  len raw - len (text_line raw)
  = if bool_decide (["013"%char; "010"%char] `suffix_of` raw) then 1 else 0.
Proof.
  rewrite <- (reverse_involutive raw). generalize (reverse raw). clear raw. intros r.
  assert (Hsuffix : ["013"%char; "010"%char] `suffix_of` reverse r
                    <-> ["010"%char; "013"%char] `prefix_of` r).
  { change ["013"%char; "010"%char] with (reverse ["010"%char; "013"%char]).
    symmetry. apply prefix_suffix_reverse. }
  unfold text_line, len. rewrite reverse_involutive.
  destruct r as [|c [|c' rest]].
  - rewrite (bool_decide_eq_false_2 (_ `suffix_of` _)); [lia|]. rewrite Hsuffix.
    by intros ?%prefix_nil_inv.
  - rewrite (bool_decide_eq_false_2 (_ `suffix_of` _)).
    + repeat case_bool_decide; rewrite ?length_reverse; cbn; lia.
    + rewrite Hsuffix. intros [k Hk]. done.
  - case_bool_decide as Hc.
    + rewrite (bool_decide_eq_false_2 (_ `suffix_of` _)).
      * rewrite !length_reverse. cbn. lia.
      * rewrite Hsuffix. intros [k Hk]. injection Hk as -> _. done.
    + case_bool_decide as Hlf; [case_bool_decide as Hcr|].
      * subst c c'. rewrite (bool_decide_eq_true_2 (_ `suffix_of` _)).
        -- rewrite !length_reverse. cbn. lia.
        -- rewrite Hsuffix. by exists rest.
      * rewrite (bool_decide_eq_false_2 (_ `suffix_of` _)); [lia|].
        rewrite Hsuffix. intros [k Hk]. injection Hk as _ ->. done.
      * rewrite (bool_decide_eq_false_2 (_ `suffix_of` _)); [lia|].
        rewrite Hsuffix. intros [k Hk]. injection Hk as -> _. done.
Qed.

(** Where [tell()] is the number of bytes read. *)
Lemma pending_cr_false raw next :
  last raw <> Some "013"%char ->
  (forall raw', next = Some raw' -> head raw' <> Some "013"%char) ->
  pending_cr raw next = false.
Proof.
  intros Hlast Hnext. unfold pending_cr.
  rewrite (bool_decide_eq_false_2 _ Hlast). cbn [orb].
  destruct next as [[|c rest]|]; [done| |done].
  apply bool_decide_eq_false_2. intros ->. by apply (Hnext _ eq_refl).
Qed.


Lemma with_offsets_snd opaque pos raws :
  (with_offsets opaque pos raws).*2 = text_line <$> raws.
Proof.
  revert pos. induction raws as [|raw raws IH]; intros pos; [done|].
  cbn [with_offsets]. rewrite !fmap_cons. cbn [snd]. by rewrite IH.
Qed.








(** The whole sample file. *)
Example maf_indexer_sample :
  __maf_indexer Sample.maf_text Sample.target Sample.tell_cookie
  = ([(585, 100, 104, 0); (585, 200, 204, 60)], None).
Proof. reflexivity. Qed.

(** The index built from the sample file. *)
Example make_new_index_sample :
  __make_new_index Sample.maf_name Sample.maf_text Sample.target
    Sample.tell_cookie Sample.sqlite_rejects
  = Ok (Sample.index, 2).
Proof. reflexivity. Qed.

(** After a line that ends with a carriage return alone the offset is not
    a position: with the stand-in for [tell()], the first block of
    [Sample.lone_cr_text], which begins at byte 0, gets an offset beyond
    the second one's. *)
Example maf_indexer_lone_cr :
  __maf_indexer Sample.lone_cr_text Sample.target Sample.tell_cookie
  = ([(585, 100, 104, 2 ^ 64); (585, 200, 204, 36)], None).
Proof. vm_compute. reflexivity. Qed.

End IndexerFacts.

(** ** Theorems: reopening an index *)

Module StoreFacts.

Section Check.

Variables (maf_file target : str) (db : Store).

(** A failed check is not a success, and a success needs every stored
    value in place. *)
Local Ltac refuse :=
  split; [discriminate | intros (? & ? & ? & ? & ? & ?); congruence].

Lemma select_meta_stored key :
  select_meta db key =
    match stored db key with
    | Some v => Ok v
    | None => Raise (match meta_data db with
                     | Some _ => TypeError
                     | None => OperationalError
                     end)
    end.
Proof.
  unfold select_meta, stored. destruct (meta_data db) as [rows|]; cbn; [|done].
  by destruct (filter _ rows).
Qed.

Lemma select_count_stored :
  select_count db =
    match stored_entries db with
    | Some n => Ok n
    | None => Raise OperationalError
    end.
Proof. unfold select_count, stored_entries. by destruct (offset_data db). Qed.

(** When the checks pass. *)
Lemma check_existing_db_try_ok n :
  check_existing_db_try maf_file target db = Ok n <->
    stored_int db (s2l "version") = Some MAFINDEX_VERSION
    /\ stored db (s2l "filename") = Some maf_file
    /\ stored db (s2l "target_seqname") = Some target
    /\ stored_int db (s2l "record_count") = Some n
    /\ n <> -1
    /\ stored_entries db = Some n.
Proof.
  unfold check_existing_db_try, stored_int.
  rewrite !select_meta_stored, select_count_stored.
  generalize (s2l "version") (s2l "filename") (s2l "target_seqname")
    (s2l "record_count"); intros kv kf kt kc.
  destruct (stored db kv) as [v|]; cbn; [|refuse].
  destruct (py_int v) as [e|idx_version]; cbn; [refuse|].
  case_bool_decide as Hv; [refuse|]. subst idx_version.
  destruct (stored db kf) as [filename|]; cbn; [|refuse].
  case_bool_decide as Hf; [refuse|]. subst filename.
  destruct (stored db kt) as [db_target|]; cbn; [|refuse].
  case_bool_decide as Ht; [refuse|]. subst db_target.
  destruct (stored db kc) as [c|]; cbn; [|refuse].
  destruct (py_int c) as [e|record_count]; cbn; [refuse|].
  case_bool_decide as Hc; [refuse|].
  destruct (stored_entries db) as [records_found|]; cbn; [|refuse].
  case_bool_decide as Hn; [refuse|]. subst records_found.
  split.
  - intros [= <-]. done.
  - intros (_ & _ & _ & [= <-] & _). done.
Qed.

Lemma check_existing_db_ok n :
  __check_existing_db maf_file target db = Ok n <->
  check_existing_db_try maf_file target db = Ok n.
Proof.
  unfold __check_existing_db.
  destruct (check_existing_db_try maf_file target db) as [[]|]; split; congruence.
Qed.

(** C7: opening an existing index fails exactly when the stored version
    differs from the engine's, or the stored file name or reference
    sequence identifier differs from the requested one, or the stored
    record count is the sentinel -1, or the number of stored entries
    differs from the stored record count; otherwise it succeeds, with the
    number of stored entries as the record count of the index. *)
Theorem check_existing_db_fails_iff :
  ((exists e, __check_existing_db maf_file target db = Raise e) <->
     version_differs db \/ identity_differs maf_file target db
     \/ build_unfinished db \/ count_differs db)
  /\ (~ (version_differs db \/ identity_differs maf_file target db
         \/ build_unfinished db \/ count_differs db) ->
      exists n, __check_existing_db maf_file target db = Ok n
                /\ stored_entries db = Some n).
Proof.
  assert (Hok : forall n, __check_existing_db maf_file target db = Ok n <->
            ~ version_differs db /\ ~ identity_differs maf_file target db
            /\ ~ build_unfinished db
            /\ stored_int db (s2l "record_count") = Some n
            /\ stored_entries db = Some n).
  { intros n. rewrite check_existing_db_ok, check_existing_db_try_ok.
    unfold version_differs, identity_differs, build_unfinished.
    split.
    - intros (Hv & Hf & Ht & Hc & Hn & He). rewrite Hv, Hf, Ht, Hc.
      split; [by intros H; apply H|].
      split; [intros [H|H]; by apply H|].
      split; [congruence|done].
    - intros (Hv & Hi & Hu & Hc & He).
      apply dec_stable in Hv.
      repeat split; try done.
      + apply dec_stable. intros H. apply Hi. by left.
      + apply dec_stable. intros H. apply Hi. by right.
      + intros ->. by apply Hu. }
  assert (Hcount : ~ count_differs db <->
            exists n, stored_int db (s2l "record_count") = Some n
                      /\ stored_entries db = Some n).
  { unfold count_differs. split.
    - intros Hno. destruct (stored_int db (s2l "record_count")) as [n|] eqn:Hc.
      + destruct (decide (stored_entries db = Some n)) as [He|He]; [by exists n|].
        exfalso. apply Hno. intros m [[= <-] Hm]. done.
      + exfalso. apply Hno. by intros m [? _].
    - intros (n & Hc & He) Hno. by apply (Hno n). }
  split.
  - split.
    + intros [e He].
      destruct (decide (version_differs db)) as [|Hv]; [by left|].
      destruct (decide (identity_differs maf_file target db)) as [|Hi]; [by right; left|].
      destruct (decide (build_unfinished db)) as [|Hu]; [by right; right; left|].
      right; right; right. intros n [Hc Hn].
      assert (__check_existing_db maf_file target db = Ok n) as Habs by (by apply Hok).
      congruence.
    + intros Hfail. destruct (__check_existing_db maf_file target db) as [e|n] eqn:Hres;
        [by exists e|].
      destruct (proj1 (Hok n) eq_refl) as (Hv & Hi & Hu & Hc & He).
      destruct Hfail as [?|[?|[?|Hd]]]; try done. by destruct (Hd n).
  - intros Hno.
    assert (~ count_differs db) as Hc by tauto.
    apply Hcount in Hc as (n & Hc & He). exists n. split; [|done].
    apply Hok. tauto.
Qed.

End Check.

(** The index built from the sample file opens. *)
Example check_sample :
  __check_existing_db Sample.maf_name Sample.target Sample.index = Ok 2.
Proof. reflexivity. Qed.

(** Tampering with the stored record count makes the open fail. *)
Example check_tampered_count :
  __check_existing_db Sample.maf_name Sample.target
    {| meta_data :=
         Some [(s2l "version", s2l "1"); (s2l "record_count", s2l "3");
               (s2l "target_seqname", Sample.target);
               (s2l "filename", Sample.maf_name)];
       offset_data := offset_data Sample.index |}
  = Raise ValueError.
Proof. reflexivity. Qed.

(** A store without its tables is refused as well: nothing is stored, so
    every stored value differs. *)
Example check_empty_store :
  __check_existing_db Sample.maf_name Sample.target
    {| meta_data := None; offset_data := None |}
  = Raise ValueError.
Proof. reflexivity. Qed.

End StoreFacts.

(** ** Theorems: searching the index *)

Module SearchFacts.

#[local] Instance hit_le_trans : Transitive hit_le.
Proof. intros [[s1 e1] o1] [[s2 e2] o2] [[s3 e3] o3]. unfold hit_le. lia. Qed.

#[local] Instance hit_le_total : Total hit_le.
Proof. intros [[s1 e1] o1] [[s2 e2] o2]. unfold hit_le. lia. Qed.

Lemma StronglySorted_strict {A : Type} (R : relation A) (l : list A) :
  StronglySorted R l -> NoDup l ->
  StronglySorted (fun a b => R a b /\ a <> b) l.
Proof.
  induction 1 as [|x l Hsorted IH Hall]; intros Hnodup; [constructor|].
  apply NoDup_cons in Hnodup as [Hx Hnodup].
  constructor; [by apply IH|].
  rewrite Forall_forall in Hall |- *. intros y Hy. split; [by apply Hall|].
  intros ->. done.
Qed.

(** [SELECT DISTINCT ... ORDER BY]: strictly ascending, same rows. *)
Lemma order_distinct_sorted hits : StronglySorted hit_lt (order_distinct hits).
Proof.
  unfold order_distinct, hit_lt. apply StronglySorted_strict.
  - apply StronglySorted_merge_sort; apply _.
  - rewrite merge_sort_Permutation. apply NoDup_remove_dups.
Qed.

Lemma elem_of_order_distinct h hits : h ∈ order_distinct hits <-> h ∈ hits.
Proof.
  unfold order_distinct. rewrite merge_sort_Permutation. apply elem_of_remove_dups.
Qed.

Lemma exon_hits_sorted db exon : StronglySorted hit_lt (exon_hits db exon).
Proof.
  unfold exon_hits, select_hits. destruct (offset_data db); [|constructor].
  apply order_distinct_sorted.
Qed.

(** The rows of one exon are the stored entries that pass the [WHERE]
    clause. *)
Lemma elem_of_exon_hits db exon rstart rend offset :
  (rstart, rend, offset) ∈ exon_hits db exon <->
  exists rows bin,
    offset_data db = Some rows
    /\ (bin, rstart, rend, offset) ∈ rows
    /\ where_clause exon.1 exon.2 (bin, rstart, rend, offset) = true.
Proof.
  unfold exon_hits, select_hits. destruct (offset_data db) as [rows|].
  - rewrite elem_of_order_distinct, list_elem_of_fmap. split.
    + intros ([[[bin s] e] o] & [= -> -> ->] & Hin).
      apply list_elem_of_filter in Hin as [Hw Hin]. by exists rows, bin.
    + intros (rows' & bin & [= <-] & Hin & Hw).
      exists (bin, rstart, rend, offset). split; [done|].
      by apply list_elem_of_filter.
  - split; [by intros ?%elem_of_nil | by intros (? & ? & ? & _)].
Qed.

Section Search.

Variables (maf : str) (target : str) (db : Store).

Lemma fetch_hits_spec hits blocks err :
  fetch_hits maf target hits = (blocks, err) ->
  exists fetched,
    fetched `prefix_of` hits
    /\ Forall2 (fun h b => fetch_hit maf target h = Ok b) fetched blocks
    /\ (err = None -> fetched = hits).
Proof.
  revert blocks err. induction hits as [|h hits IH]; intros blocks err; cbn.
  - intros [= <- <-]. exists []. split; [done|]. split; [apply List.Forall2_nil|done].
  - destruct (fetch_hit maf target h) as [e|b] eqn:Hfetch.
    + intros [= <- <-]. exists []. split; [apply prefix_nil|]. split; [apply List.Forall2_nil|done].
    + destruct (fetch_hits maf target hits) as [more err'].
      intros [= <- <-]. destruct (IH _ _ eq_refl) as (fetched & Hpre & Hall & Hnone).
      exists (h :: fetched). split; [by apply prefix_cons|].
      split; [by constructor|]. intros Herr. by rewrite Hnone.
Qed.

Lemma search_exons_spec exons blocks err :
  search_exons maf target db exons = (blocks, err) ->
  exists fetched,
    fetched `prefix_of` concat (exon_hits db <$> exons)
    /\ Forall2 (fun h b => fetch_hit maf target h = Ok b) fetched blocks
    /\ (err = None -> fetched = concat (exon_hits db <$> exons)).
Proof.
  revert blocks err. induction exons as [|[exonstart exonend] exons IH];
    intros blocks err; cbn [search_exons].
  - intros [= <- <-]. exists []. split; [done|]. split; [apply List.Forall2_nil|done].
  - rewrite fmap_cons. cbn [concat]. unfold exon_hits at 1 3. cbn [fst snd].
    destruct (select_hits db exonstart exonend) as [e|rows].
    + intros [= <- <-]. exists []. split; [apply prefix_nil|]. split; [apply List.Forall2_nil|done].
    + destruct (fetch_hits maf target rows) as [found [e|]] eqn:Hrows.
      * intros [= <- <-].
        destruct (fetch_hits_spec _ _ _ Hrows) as (fetched & Hpre & Hall & _).
        exists fetched. split; [by apply prefix_app_r|]. split; [done|done].
      * destruct (search_exons maf target db exons) as [more err'].
        intros [= <- <-].
        destruct (fetch_hits_spec _ _ _ Hrows) as (fetched & _ & Hall & Hnone).
        rewrite (Hnone eq_refl) in Hall.
        destruct (IH _ _ eq_refl) as (fetched' & Hpre' & Hall' & Hnone').
        exists (rows ++ fetched'). split; [by apply prefix_app|].
        split; [by apply Forall2_app|]. intros Herr. by rewrite Hnone'.
Qed.

(** C2 (amended): the blocks [search] yields are fetched, in this order,
    for the rows of the first query interval, then those of the second,
    and so on (all of them when no error ends the search); the rows of
    each interval are ordered by (start, end, offset), strictly ascending. *)
Theorem search_order_per_interval starts ends blocks err :
  search maf target db starts ends = (blocks, err) ->
  Forall (fun exon => StronglySorted hit_lt (exon_hits db exon)) (exons_of starts ends)
  /\ exists fetched,
       fetched `prefix_of` concat (exon_hits db <$> exons_of starts ends)
       /\ Forall2 (fun h b => fetch_hit maf target h = Ok b) fetched blocks
       /\ (err = None -> fetched = concat (exon_hits db <$> exons_of starts ends)).
Proof.
  intros Hsearch. split.
  - apply Forall_forall. intros exon _. apply exon_hits_sorted.
  - revert Hsearch. unfold search.
    case_bool_decide.
    { intros [= <- <-]. exists []. split; [apply prefix_nil|]. split; [apply List.Forall2_nil|done]. }
    case_bool_decide.
    { intros [= <- <-]. exists []. split; [apply prefix_nil|]. split; [apply List.Forall2_nil|done]. }
    apply search_exons_spec.
Qed.

End Search.

(** The two blocks of the sample file, asked for in descending order. *)
Lemma search_order_per_interval_witness :
  Forall (fun exon => StronglySorted hit_lt (exon_hits Sample.index exon))
    (exons_of [200; 100] [205; 105])
  /\ exists fetched,
       fetched `prefix_of` concat (exon_hits Sample.index <$> exons_of [200; 100] [205; 105])
       /\ Forall2 (fun h b => fetch_hit Sample.maf_text Sample.target h = Ok b) fetched
            (search Sample.maf_text Sample.target Sample.index [200; 100] [205; 105]).1
       /\ (None = None :> option exn ->
           fetched = concat (exon_hits Sample.index <$> exons_of [200; 100] [205; 105])).
Proof.
  apply (search_order_per_interval Sample.maf_text Sample.target Sample.index
           [200; 100] [205; 105]).
  reflexivity.
Defined.

(** C2 (as stated) fails: with the intervals [200, 205) and [100, 105) in
    this order, [search] yields the block at 200-204 (offset 60) before the
    block at 100-104 (offset 0). *)
Lemma search_not_globally_ordered :
  let out := search Sample.maf_text Sample.target Sample.index [200; 100] [205; 105] in
  out.2 = None
  /\ ref_span Sample.target <$> out.1 = [Some (200, 204); Some (100, 104)]
  /\ Forall2 (fun h b => fetch_hit Sample.maf_text Sample.target h = Ok b)
       [(200, 204, 60); (100, 104, 0)] out.1
  /\ ~ Sorted hit_le [(200, 204, 60); (100, 104, 0)].
Proof.
  cbv zeta. split; [reflexivity|]. split; [reflexivity|]. split.
  - apply List.Forall2_cons; [vm_compute; reflexivity|].
    apply List.Forall2_cons; [vm_compute; reflexivity|].
    apply List.Forall2_nil.
  - intros Hsorted. inversion Hsorted as [|? ? _ Hhd]; subst.
    inversion Hhd as [|? ? Hle]; subst. unfold hit_le in Hle. lia.
Qed.

End SearchFacts.

(** ** Theorems: the exon splicer *)

Module SplicerFacts.

Lemma where_clause_no_overlap exonstart exonend bin rstart rend offset :
  exonstart < exonend -> rstart <= rend ->
  ~ overlaps (exonstart, exonend) (bin, rstart, rend, offset) ->
  where_clause exonstart exonend (bin, rstart, rend, offset) = false.
Proof.
  unfold overlaps, where_clause. cbn [fst snd]. intros Hexon Hrow Hno.
  rewrite (bool_decide_eq_false_2 (exonstart <= rend <= exonend - 1)) by lia.
  rewrite (bool_decide_eq_false_2 (rstart <= exonend - 1 <= rend)) by lia.
  by rewrite andb_false_r.
Qed.

Lemma select_hits_none db rows exonstart exonend :
  offset_data db = Some rows ->
  Forall (fun r => where_clause exonstart exonend r = false) rows ->
  select_hits db exonstart exonend = Ok [].
Proof.
  intros Hrows Hnone. unfold select_hits. rewrite Hrows.
  replace (filter (fun r => where_clause exonstart exonend r = true) rows) with (@nil row);
    [reflexivity|].
  clear Hrows. symmetry. induction Hnone as [|r rows Hr _ IH]; [done|].
  rewrite filter_cons_False; [done|]. by rewrite Hr.
Qed.

Section NoHits.

Variables (maf target : str) (db : Store).

Lemma search_exons_no_hits exons :
  Forall (fun exon : Z * Z => select_hits db exon.1 exon.2 = Ok []) exons ->
  search_exons maf target db exons = ([], None).
Proof.
  induction 1 as [|[exonstart exonend] exons Hhits _ IH]; [done|].
  cbn [search_exons]. cbn [fst snd] in Hhits. rewrite Hhits. cbn [fetch_hits].
  by rewrite IH.
Qed.

Lemma search_no_hits starts ends :
  length starts = length ends ->
  Forall (fun exon : Z * Z => exon.1 < exon.2) (exons_of starts ends) ->
  Forall (fun exon : Z * Z => select_hits db exon.1 exon.2 = Ok []) (exons_of starts ends) ->
  search maf target db starts ends = ([], None).
Proof.
  intros Hlen Hvalid Hhits. unfold search.
  rewrite bool_decide_eq_false_2 by (intros H; by apply H).
  rewrite bool_decide_eq_false_2; [by apply search_exons_no_hits|].
  rewrite Exists_exists. intros (exon & Hin & Hshort).
  rewrite Forall_forall in Hvalid. specialize (Hvalid exon Hin). lia.
Qed.

End NoHits.

(** A loop over a list that builds one value per element. *)
Lemma mapM_ok {A B : Type} (f : A -> result B) (l : list A) (l' : list B) :
  mapM f l = Ok l' <-> Forall2 (fun x y => f x = Ok y) l l'.
Proof.
  revert l'. induction l as [|x l IH]; intros l'; cbn.
  - split; [intros [= <-]; constructor | by inversion 1].
  - destruct (f x) as [e|y] eqn:Hfx; cbn.
    + split; [done | inversion 1; congruence].
    + destruct (mapM f l) as [e|k]; cbn; unfold mret, result_ret.
      * split; [done|]. inversion 1 as [|? y' ? k' Hy Hk]; subst.
        apply IH in Hk. done.
      * split.
        -- intros [= <-]. constructor; [done | by apply IH].
        -- inversion 1 as [|? y' ? k' Hy Hk]; subst. apply IH in Hk.
           congruence.
Qed.

Lemma mapM_ext {A B : Type} (f g : A -> result B) (l : list A) :
  Forall (fun x => f x = g x) l -> mapM f l = mapM g l.
Proof. induction 1 as [|x l Hx _ IH]; cbn; [done|]. by rewrite Hx, IH. Qed.

Lemma mapM_fmap {A B C : Type} (f : B -> result C) (g : A -> B) (l : list A) :
  mapM f (g <$> l) = mapM (fun x => f (g x)) l.
Proof. induction l as [|x l IH]; cbn; [done|]. by rewrite IH. Qed.

Lemma mapM_total {A B : Type} (g : A -> B) (l : list A) :
  mapM (fun x => Ok (g x) : result B) l = Ok (g <$> l).
Proof. induction l as [|x l IH]; cbn; [done|]. by rewrite IH. Qed.

(** The modelled constructor keeps the records it is given. *)
Lemma MultipleSeqAlignment_ok recs al :
  MultipleSeqAlignment recs = Ok al ->
  records al = recs
  /\ _annotations al = ∅
  /\ forall r r', r ∈ recs -> r' ∈ recs -> length (seq r) = length (seq r').
Proof.
  unfold MultipleSeqAlignment. destruct recs as [|r0 recs'].
  - intros [= <-]. repeat split. by intros r r' ?%elem_of_nil.
  - destruct (forallb _ _) eqn:Hall; [|done]. intros [= <-]. repeat split.
    rewrite forallb_forall in Hall. intros r r' Hr Hr'.
    apply list_elem_of_In, Hall, bool_decide_eq_true in Hr.
    apply list_elem_of_In, Hall, bool_decide_eq_true in Hr'. congruence.
Qed.

Lemma MultipleSeqAlignment_single r :
  MultipleSeqAlignment [r] = Ok {| records := [r]; _annotations := ∅ |}.
Proof.
  unfold MultipleSeqAlignment. cbn [forallb].
  by rewrite bool_decide_eq_true_2.
Qed.

Lemma subseq_item_ok subseq name text :
  subseq_item subseq name = Ok text -> (name, text) ∈ subseq.
Proof.
  unfold subseq_item.
  destruct (filter _ subseq) as [|[k v] rest] eqn:Hfilter; [done|].
  intros [= <-].
  assert ((k, v) ∈ filter (fun kv : str * str => kv.1 = name) subseq) as Hin
    by (rewrite Hfilter; left).
  apply list_elem_of_filter in Hin as [Hk Hin]. cbn in Hk. by subst k.
Qed.

Lemma NoDup_fst_unique {A B : Type} (l : list (A * B)) x y1 y2 :
  NoDup l.*1 -> (x, y1) ∈ l -> (x, y2) ∈ l -> y1 = y2.
Proof.
  induction l as [|[a b] l IH]; [by intros _ ?%elem_of_nil|].
  rewrite fmap_cons. cbn [fst]. intros [Ha Hnodup]%NoDup_cons.
  intros [H1|H1]%elem_of_cons [H2|H2]%elem_of_cons.
  - congruence.
  - injection H1 as -> ->. destruct Ha. apply list_elem_of_fmap. by exists (a, y2).
  - injection H2 as -> ->. destruct Ha. apply list_elem_of_fmap. by exists (a, y1).
  - by apply IH.
Qed.

Lemma expected_letters_nonneg starts ends :
  Forall (fun exon : Z * Z => ~ exon.2 - exon.1 < 1) (exons_of starts ends) ->
  0 <= expected_letters_of starts ends.
Proof.
  unfold expected_letters_of. induction 1 as [|exon exons Hexon _ IH]; cbn; lia.
Qed.

Lemma bind_ok {A B : Type} (m : result A) (k : A -> result B) (y : B) :
  m ≫= k = Ok y -> exists x, m = Ok x /\ k x = Ok y.
Proof. destruct m as [e|x]; [done|]. intros H. by exists x. Qed.

Section Splice.

Variable reverse_complement : str -> result str.
Variables (maf target : str) (db : Store).

(** The first block fixes the reference strand; later blocks keep it. *)
Lemma splice_block_strand st block st' :
  splice_block target st block = Ok st' ->
  match ref_first_strand st with
  | Some s => ref_first_strand st' = Some s
  | None => ref_first_strand st' = first_ref_strand target [block]
            /\ is_Some (ref_first_strand st')
  end.
Proof.
  unfold splice_block, first_ref_strand. cbn [head mbind option_bind].
  destruct (filter _ (records block)) as [|seqrec rest]; [done|].
  cbn [head mbind option_bind].
  destruct (annotations seqrec) as [anno|] eqn:Hanno; [|done].
  cbn [mbind option_bind].
  intros H. apply bind_ok in H as (strand_ & [= <-] & H).
  apply bind_ok in H as (fs & Hfs & H).
  apply bind_ok in H as (rec_start & _ & H).
  apply bind_ok in H as (ungapped & _ & H).
  apply bind_ok in H as (sbp & _ & H).
  apply bind_ok in H as ([[tv rp] sbp'] & _ & [= <-]).
  cbn [ref_first_strand].
  destruct (ref_first_strand st) as [s|].
  - case_bool_decide; [done|]. by injection Hfs as <-.
  - case_bool_decide; [|done]. injection Hfs as <-. split; [done|by eexists].
Qed.

Lemma fold_splice_block_strand st blocks st' s :
  fold_result (splice_block target) st blocks = Ok st' ->
  ref_first_strand st = Some s ->
  ref_first_strand st' = Some s.
Proof.
  revert st. induction blocks as [|block blocks IH]; intros st; cbn [fold_result].
  - by intros [= <-].
  - intros H Hs. apply bind_ok in H as (st1 & Hblock & H).
    apply (IH st1); [done|].
    apply splice_block_strand in Hblock. by rewrite Hs in Hblock.
Qed.

Lemma splice_texts_strand fetched exons st subseq :
  splice_texts target fetched exons = Ok (st, subseq) ->
  fetched <> [] ->
  ref_first_strand st = first_ref_strand target fetched
  /\ is_Some (ref_first_strand st).
Proof.
  unfold splice_texts. cbv zeta. intros H Hne.
  apply bind_ok in H as (st' & Hfold & H).
  apply bind_ok in H as (target_split & _ & H).
  case_bool_decide; [done|].
  apply bind_ok in H as (subseq' & _ & [= <- <-]).
  destruct fetched as [|block blocks]; [done|]. cbn [fold_result] in Hfold.
  apply bind_ok in Hfold as (st1 & Hblock & Hfold).
  apply splice_block_strand in Hblock. cbn [ref_first_strand] in Hblock.
  destruct Hblock as [Hfirst [s Hs]].
  rewrite (fold_splice_block_strand _ _ _ _ Hfold Hs).
  split; [|by eexists]. rewrite <- Hs, Hfirst. done.
Qed.

(** What a successful [splice] has checked. *)
Lemma splice_ok fetched exons expected first_strand subseq :
  splice target fetched exons expected = Ok (first_strand, subseq) ->
  exists st target_seq,
    splice_texts target fetched exons = Ok (st, subseq)
    /\ ref_first_strand st = Some first_strand
    /\ subseq_item subseq target = Ok target_seq
    /\ len (ungap target_seq) = expected
    /\ Forall (fun kv : str * str => len kv.2 = len target_seq) subseq.
Proof.
  unfold splice. intros H.
  apply bind_ok in H as ([st subseq'] & Htexts & H).
  apply bind_ok in H as (target_seq & Hitem & H).
  case_bool_decide as Hletters; [done|].
  cbv zeta in H. case_bool_decide as Hlens; [done|].
  apply bind_ok in H as (fs & Hfs & [= <- <-]).
  exists st, target_seq. repeat split; try done.
  - destruct (ref_first_strand st); [|done]. by injection Hfs as <-.
  - apply Forall_forall. intros kv Hkv. apply dec_stable. intros Hne.
    apply Hlens, Exists_exists. by exists kv.
Qed.

(** The names of the spliced texts are pairwise distinct. *)
Lemma splice_texts_names fetched exons st subseq :
  splice_texts target fetched exons = Ok (st, subseq) -> NoDup subseq.*1.
Proof.
  unfold splice_texts. cbv zeta. intros H.
  apply bind_ok in H as (st' & _ & H).
  apply bind_ok in H as (target_split & _ & H).
  case_bool_decide; [done|].
  apply bind_ok in H as (subseq' & Hmap & [= <- <-]).
  apply mapM_ok in Hmap.
  assert (subseq'.*1 = elements (list_to_set (C := gset str)
            (fetched ≫= fun multiseq => id <$> records multiseq))) as ->.
  { induction Hmap as [|seqid [k v] names subseq'' Hhead _ IH]; [done|].
    rewrite fmap_cons. cbn [fst]. f_equal; [|done].
    unfold splice_sequence in Hhead.
    apply bind_ok in Hhead as (seq_split & _ & [= <- _]). done. }
  apply NoDup_elements.
Qed.

(** What made [search] run to its end. *)
Lemma search_ok_valid starts ends fetched :
  search maf target db starts ends = (fetched, None) ->
  length starts = length ends
  /\ Forall (fun exon : Z * Z => ~ exon.2 - exon.1 < 1) (exons_of starts ends).
Proof.
  unfold search. case_bool_decide as Hlen; [done|].
  case_bool_decide as Hshort; [done|]. intros _. split; [done|].
  apply Forall_forall. intros exon Hin Hlt. apply Hshort, Exists_exists. by exists exon.
Qed.

Lemma ungap_filler n : ungap (str_mul "N"%char n) = str_mul "N"%char n.
Proof.
  unfold ungap, str_mul. induction (Z.to_nat n) as [|k IH]; [done|].
  cbn [replicate]. rewrite filter_cons_True by done. by rewrite IH.
Qed.

Lemma len_str_mul c n : 0 <= n -> len (str_mul c n) = n.
Proof. intros Hn. unfold len, str_mul. rewrite length_replicate. lia. Qed.

(** Without a matching entry [get_spliced] returns the filler record. *)
Lemma get_spliced_no_hits starts ends strand_ :
  strand_ = 1 \/ strand_ = -1 ->
  search maf target db starts ends = ([], None) ->
  get_spliced reverse_complement maf target db starts ends strand_
  = Ok {| records := [{| seq := str_mul "N"%char (expected_letters_of starts ends);
                         id := target; annotations := None |}];
          _annotations := ∅ |}.
Proof.
  intros Hstrand Hsearch. unfold get_spliced.
  rewrite bool_decide_eq_false_2 by tauto. rewrite Hsearch. cbv zeta.
  rewrite bool_decide_eq_true_2 by done. apply MultipleSeqAlignment_single.
Qed.

(** The no-coverage fallback: when every stored entry spans at least one
    position and none of them overlaps an exon, the result is the single
    record of the reference identifier with "N" repeated
    [sum(end - start)] times. *)
Lemma no_coverage_filler rows starts ends strand_ :
  strand_ = 1 \/ strand_ = -1 ->
  length starts = length ends ->
  Forall (fun exon : Z * Z => exon.1 < exon.2) (exons_of starts ends) ->
  offset_data db = Some rows ->
  Forall (fun r : row => let '(_, rstart, rend, _) := r in rstart <= rend) rows ->
  (forall exon r, exon ∈ exons_of starts ends -> r ∈ rows -> ~ overlaps exon r) ->
  get_spliced reverse_complement maf target db starts ends strand_
  = Ok {| records := [{| seq := str_mul "N"%char (expected_letters_of starts ends);
                         id := target; annotations := None |}];
          _annotations := ∅ |}.
Proof.
  intros Hstrand Hlen Hvalid Hrows Hspan Hno.
  apply get_spliced_no_hits; [done|]. apply search_no_hits; [done|done|].
  apply Forall_forall. intros [exonstart exonend] Hexon. cbn [fst snd].
  apply (select_hits_none db rows); [done|].
  apply Forall_forall. intros [[[bin rstart] rend] offset] Hr.
  rewrite Forall_forall in Hvalid. rewrite Forall_forall in Hspan.
  apply where_clause_no_overlap.
  - apply (Hvalid _ Hexon).
  - apply (Hspan _ Hr).
  - by apply Hno.
Qed.

Lemma strand_record_ok strand_ first_strand kv r :
  (forall s s', reverse_complement s = Ok s' ->
                length s' = length s /\ length (ungap s') = length (ungap s)) ->
  strand_record reverse_complement strand_ first_strand kv = Ok r ->
  id r = kv.1
  /\ length (seq r) = length kv.2
  /\ length (ungap (seq r)) = length (ungap kv.2).
Proof.
  intros Hrc. unfold strand_record. intros H.
  apply bind_ok in H as (seq_ & Hseq & [= <-]). cbn [id seq].
  case_bool_decide.
  - by injection Hseq as <-.
  - by destruct (Hrc _ _ Hseq).
Qed.

(** C4: when [get_spliced] returns, the alignment has a record of the
    reference identifier, every such record has exactly
    [sum(end - start)] symbols once the gaps are removed, and all records
    have texts of one length ([Seq.reverse_complement], missing from the
    sources, is assumed to keep the length and the number of gaps of a
    text).  And when the spliced texts break one of the two conditions,
    [get_spliced] raises a [ValueError]. *)
Theorem spliced_lengths starts ends strand_ :
  (forall al,
     (forall s s', reverse_complement s = Ok s' ->
                   length s' = length s /\ length (ungap s') = length (ungap s)) ->
     get_spliced reverse_complement maf target db starts ends strand_ = Ok al ->
     (exists r, r ∈ records al /\ id r = target)
     /\ (forall r, r ∈ records al -> id r = target ->
                   len (ungap (seq r)) = expected_letters_of starts ends)
     /\ (forall r r', r ∈ records al -> r' ∈ records al -> len (seq r) = len (seq r')))
  /\ (forall fetched st subseq target_seq,
        strand_ = 1 \/ strand_ = -1 ->
        search maf target db starts ends = (fetched, None) ->
        fetched <> [] ->
        splice_texts target fetched (exons_of starts ends) = Ok (st, subseq) ->
        subseq_item subseq target = Ok target_seq ->
        len (ungap target_seq) <> expected_letters_of starts ends
        \/ Exists (fun kv : str * str => len kv.2 <> len target_seq) subseq ->
        get_spliced reverse_complement maf target db starts ends strand_
        = Raise ValueError).
Proof.
  split.
  - intros al Hrc. unfold get_spliced. case_bool_decide; [done|].
    destruct (search maf target db starts ends) as [fetched [e|]] eqn:Hsearch; [done|].
    cbv zeta. case_bool_decide as Hnone.
    + rewrite MultipleSeqAlignment_single. intros [= <-]. cbn [records].
      apply search_ok_valid in Hsearch as [_ Hvalid].
      apply expected_letters_nonneg in Hvalid.
      split; [eexists; split; [left|done]|]. split.
      * intros r ->%list_elem_of_singleton _. cbn [seq].
        rewrite ungap_filler. by apply len_str_mul.
      * by intros r r' ->%list_elem_of_singleton ->%list_elem_of_singleton.
    + intros Hres. apply bind_ok in Hres as ([fs subseq] & Hsplice & Hres).
      apply bind_ok in Hres as (recs & Hrecs & Hal).
      apply MultipleSeqAlignment_ok in Hal as (-> & _ & _).
      apply splice_ok in Hsplice as (st & target_seq & Htexts & _ & Hitem & Hletters & Hlens).
      apply splice_texts_names in Htexts. apply subseq_item_ok in Hitem.
      apply mapM_ok in Hrecs. rewrite Forall_forall in Hlens.
      assert (Hback : forall r, r ∈ recs -> exists kv,
                kv ∈ subseq
                /\ strand_record reverse_complement strand_ fs kv = Ok r).
      { intros r (i & Hi)%list_elem_of_lookup.
        destruct (Forall2_lookup_r _ _ _ _ _ Hrecs Hi) as (kv & Hkv & Hr).
        exists kv. split; [by eapply list_elem_of_lookup_2|done]. }
      split; [|split].
      * apply list_elem_of_lookup in Hitem as (i & Hi).
        destruct (Forall2_lookup_l _ _ _ _ _ Hrecs Hi) as (r & Hr & Hrec).
        exists r. split; [by eapply list_elem_of_lookup_2|].
        by destruct (strand_record_ok _ _ _ _ Hrc Hrec) as (-> & _).
      * intros r (kv & Hkv & Hrec)%Hback Hid.
        destruct (strand_record_ok _ _ _ _ Hrc Hrec) as (Hk & _ & Hgaps).
        destruct kv as [k v]. cbn [fst snd] in *. rewrite Hid in Hk. subst k.
        rewrite (NoDup_fst_unique _ _ _ _ Htexts Hkv Hitem) in Hgaps.
        unfold len in *. rewrite Hgaps. done.
      * intros r r' (kv & Hkv & Hrec)%Hback (kv' & Hkv' & Hrec')%Hback.
        destruct (strand_record_ok _ _ _ _ Hrc Hrec) as (_ & Hl & _).
        destruct (strand_record_ok _ _ _ _ Hrc Hrec') as (_ & Hl' & _).
        pose proof (Hlens _ Hkv) as Hk. pose proof (Hlens _ Hkv') as Hk'.
        unfold len in *. lia.
  - intros fetched st subseq target_seq Hstrand Hsearch Hne Htexts Hitem Hbad.
    unfold get_spliced. rewrite bool_decide_eq_false_2 by tauto.
    rewrite Hsearch. cbv zeta.
    rewrite bool_decide_eq_false_2 by (by destruct fetched).
    unfold splice. rewrite Htexts. cbn [mbind result_bind]. rewrite Hitem.
    cbn [mbind result_bind].
    case_bool_decide as Hletters; [done|].
    destruct Hbad as [Hbad|Hbad]; [done|].
    by rewrite (bool_decide_eq_true_2 _ Hbad).
Qed.

(** C5: with [rs] the reference strand of the first fetched block, the
    alignment returned for the requested strand [rs] holds the spliced
    texts as they are, and a request for the other strand returns the
    reverse complement of each record of that alignment. *)
Theorem strand_mismatch_reverse_complements starts ends fetched rs al :
  search maf target db starts ends = (fetched, None) ->
  first_ref_strand target fetched = Some rs ->
  get_spliced reverse_complement maf target db starts ends rs = Ok al ->
  (exists subseq,
     splice target fetched (exons_of starts ends) (expected_letters_of starts ends)
     = Ok (rs, subseq)
     /\ records al = spliced_record <$> subseq)
  /\ (forall s, s = 1 \/ s = -1 -> s <> rs ->
        get_spliced reverse_complement maf target db starts ends s
        = (recs ← mapM (reverse_complement_record reverse_complement) (records al);
           MultipleSeqAlignment recs)).
Proof.
  intros Hsearch Hfirst. unfold get_spliced at 1.
  case_bool_decide; [done|]. rewrite Hsearch. cbv zeta.
  assert (Hne : fetched <> []) by (by intros ->).
  rewrite bool_decide_eq_false_2 by (by destruct fetched).
  intros Hres. apply bind_ok in Hres as ([fs subseq] & Hsplice & Hres).
  apply bind_ok in Hres as (recs & Hrecs & Hal).
  apply MultipleSeqAlignment_ok in Hal as (Hal & _ & _).
  assert (fs = rs) as ->.
  { destruct (splice_ok _ _ _ _ _ Hsplice) as (st & ? & Htexts & Hfs & _).
    destruct (splice_texts_strand _ _ _ _ Htexts Hne) as [Hst _]. congruence. }
  assert (recs = spliced_record <$> subseq) as ->.
  { rewrite (mapM_ext _ (fun kv => Ok (spliced_record kv))) in Hrecs.
    - rewrite mapM_total in Hrecs. by injection Hrecs as <-.
    - apply Forall_forall. intros kv _. unfold strand_record.
      by rewrite bool_decide_eq_true_2. }
  split; [by exists subseq|].
  intros s Hs Hdiff. unfold get_spliced.
  rewrite bool_decide_eq_false_2 by tauto. rewrite Hsearch. cbv zeta.
  rewrite bool_decide_eq_false_2 by (by destruct fetched).
  rewrite Hsplice, Hal. cbn [mbind result_bind]. rewrite mapM_fmap.
  rewrite (mapM_ext (strand_record reverse_complement s rs)
             (fun kv => reverse_complement_record reverse_complement (spliced_record kv)));
    [done|].
  apply Forall_forall. intros kv _. unfold strand_record, reverse_complement_record.
  by rewrite (bool_decide_eq_false_2 _ Hdiff).
Qed.

End Splice.

Lemma complement_gap c : Sample.complement c = "-"%char <-> c = "-"%char.
Proof.
  unfold Sample.complement. repeat case_bool_decide; subst; split; congruence.
Qed.

(** The stand-in keeps the length and the number of gaps of a text. *)
Lemma dna_reverse_complement_lengths s s' :
  Sample.dna_reverse_complement s = Ok s' ->
  length s' = length s /\ length (ungap s') = length (ungap s).
Proof.
  unfold Sample.dna_reverse_complement. intros [= <-]. split.
  - by rewrite length_reverse, length_fmap.
  - unfold ungap. rewrite filter_reverse, length_reverse.
    induction s as [|c s IH]; [done|]. rewrite fmap_cons.
    destruct (decide (c = "-"%char)) as [Hc|Hc].
    + rewrite !filter_cons_False; [done| |]; intros H; apply H; [done|].
      by apply complement_gap.
    + rewrite !filter_cons_True; [cbn; by rewrite IH|done|].
      by rewrite complement_gap.
Qed.

Lemma spliced_lengths_witness :
  (exists r, r ∈ records Sample.spliced /\ id r = Sample.target)
  /\ (forall r, r ∈ records Sample.spliced -> id r = Sample.target ->
                len (ungap (seq r)) = expected_letters_of [100; 200] [103; 205])
  /\ (forall r r', r ∈ records Sample.spliced -> r' ∈ records Sample.spliced ->
                   len (seq r) = len (seq r')).
Proof.
  apply (proj1 (spliced_lengths Sample.dna_reverse_complement Sample.maf_text
                  Sample.target Sample.index [100; 200] [103; 205] 1)
           Sample.spliced dna_reverse_complement_lengths).
  vm_compute. reflexivity.
Defined.

Lemma strand_mismatch_reverse_complements_witness :
  get_spliced Sample.dna_reverse_complement Sample.maf_text Sample.target Sample.index
    [100; 200] [103; 205] (-1)
  = (recs ← mapM (reverse_complement_record Sample.dna_reverse_complement)
              (records Sample.spliced);
     MultipleSeqAlignment recs).
Proof.
  apply (proj2 (strand_mismatch_reverse_complements Sample.dna_reverse_complement
                  Sample.maf_text Sample.target Sample.index [100; 200] [103; 205]
                  (search Sample.maf_text Sample.target Sample.index
                     [100; 200] [103; 205]).1
                  1 Sample.spliced
                  ltac:(vm_compute; reflexivity) ltac:(vm_compute; reflexivity)
                  ltac:(vm_compute; reflexivity))
           (-1) (or_intror eq_refl) ltac:(discriminate)).
Defined.

(** The other strand of the sample, spelled out. *)
Example get_spliced_minus_sample :
  records <$> get_spliced Sample.dna_reverse_complement Sample.maf_text Sample.target
                Sample.index [100; 200] [103; 205] (-1)
  = Ok [{| seq := s2l "TAGGGTGGT"; id := s2l "alt"; annotations := None |};
        {| seq := s2l "TAC-GTCGT"; id := s2l "ref"; annotations := None |}].
Proof. vm_compute. reflexivity. Qed.

(** The scenario of the specification: one block, one exon inside it. *)
Example get_spliced_scenario :
  records <$> get_spliced Sample.dna_reverse_complement Sample.maf_text Sample.target
                Sample.index [100] [103] 1
  = Ok [{| seq := s2l "ACC"; id := s2l "alt"; annotations := None |};
        {| seq := s2l "ACG"; id := s2l "ref"; annotations := None |}].
Proof. vm_compute. reflexivity. Qed.

(** The fallback on the sample file: nothing is indexed at 300-304. *)
Example no_coverage_filler_sample :
  get_spliced Sample.dna_reverse_complement Sample.maf_text Sample.target Sample.index
    [300] [305] (-1)
  = Ok {| records := [{| seq := s2l "NNNNN"; id := Sample.target; annotations := None |}];
          _annotations := ∅ |}.
Proof.
  apply (no_coverage_filler Sample.dna_reverse_complement Sample.maf_text Sample.target
           Sample.index [(585, 100, 104, 0); (585, 200, 204, 60)] [300] [305] (-1)).
  - by right.
  - done.
  - repeat constructor.
  - done.
  - repeat constructor; cbn; lia.
  - intros exon r ->%list_elem_of_singleton Hr.
    repeat (apply elem_of_cons in Hr as [->|Hr]); [| |by apply elem_of_nil in Hr];
      unfold overlaps; cbn; lia.
Qed.

(** C6 fails on the code: the file [Sample.gap_text] has one block whose
    reference row has size 0 at start 10, so the builder stores the entry
    (585, 10, 9, 0), which covers no position.  The exon [5, 10) overlaps
    no indexed block, yet the query matches the entry (its stored end, 9,
    lies between 5 and 9), the block is fetched, and [get_spliced] raises a
    [KeyError] instead of returning the filler record. *)
Theorem no_coverage_zero_size_block (reverse_complement sqlite_other : str -> result str)
    (tell_opaque : str -> Z -> Z) :
  __make_new_index Sample.maf_name Sample.gap_text Sample.target tell_opaque sqlite_other
  = Ok (Sample.gap_index, 1)
  /\ __check_existing_db Sample.maf_name Sample.target Sample.gap_index = Ok 1
  /\ ~ overlaps (5, 10) (585, 10, 9, 0)
  /\ exon_hits Sample.gap_index (5, 10) = [(10, 9, 0)]
  /\ length (search Sample.gap_text Sample.target Sample.gap_index [5] [10]).1 = 1%nat
  /\ get_spliced reverse_complement Sample.gap_text Sample.target Sample.gap_index
       [5] [10] 1
     = Raise KeyError.
Proof.
  split; [vm_compute; reflexivity|]. split; [vm_compute; reflexivity|].
  split; [unfold overlaps; cbn; lia|]. split; [vm_compute; reflexivity|].
  split; [vm_compute; reflexivity|]. vm_compute. reflexivity.
Qed.

End SplicerFacts.

(** ** More on the binning scheme *)

Module BinningMore.
Import Binning BinningFacts.

Lemma shiftr_lt_pow2 a n m :
  0 <= n -> 0 <= m -> 0 <= a < 2 ^ (n + m) -> 0 <= Z.shiftr a n < 2 ^ m.
Proof.
  intros Hn Hm Ha. rewrite Z.shiftr_div_pow2 by done. split.
  - apply Z.div_pos; [lia|]. by apply Z.pow_pos_nonneg.
  - apply Z.div_lt_upper_bound; [by apply Z.pow_pos_nonneg|].
    rewrite <- Z.pow_add_r by done. lia.
Qed.

(** A stored entry [rstart, rend] that shares a position with the query
    interval [s, e) has its bin among the candidate bins of the query, as
    long as the entry ends below 2^30: the bin filter of [search] loses no
    overlapping block. *)
Theorem overlapping_entry_is_candidate s e rstart rend :
  0 <= s < e -> 0 <= rstart <= rend -> rend < 2 ^ 30 ->
  s <= rend -> rstart <= e - 1 ->
  _ucscbin rstart (rend + 1) ∈ _region2bin s e.
Proof.
  intros Hse Hr Hbound Hleft Hright.
  pose proof (fun k Hk => shiftr_le_mono rstart (e - 1) k Hk Hright) as Hup.
  pose proof (fun k Hk => shiftr_le_mono s rend k Hk Hleft) as Hdown.
  pose proof (Hup 17 ltac:(lia)). pose proof (Hup 20 ltac:(lia)).
  pose proof (Hup 23 ltac:(lia)). pose proof (Hup 26 ltac:(lia)).
  pose proof (Hdown 17 ltac:(lia)). pose proof (Hdown 20 ltac:(lia)).
  pose proof (Hdown 23 ltac:(lia)). pose proof (Hdown 26 ltac:(lia)).
  pose proof (shiftr_lt_pow2 rend 29 1 ltac:(lia) ltac:(lia) ltac:(lia)) as H29.
  change (2 ^ 1) with 2 in H29.
  rewrite ucscbin_unfold, region2bin_spec. rewrite Z.add_simpl_r.
  repeat case_decide; try lia.
Qed.

Lemma overlapping_entry_is_candidate_witness :
  _ucscbin 100 (104 + 1) ∈ _region2bin 98 103.
Proof. apply overlapping_entry_is_candidate; lia. Defined.

(** A wider query interval has at least the candidate bins of a narrower
    one. *)
Theorem region2bin_mono s e s' e' :
  s' <= s -> e <= e' -> _region2bin s e ⊆ _region2bin s' e'.
Proof.
  intros Hs He k. rewrite !region2bin_spec.
  pose proof (fun n Hn => shiftr_le_mono s' s n Hn Hs) as Hlo.
  pose proof (fun n Hn => shiftr_le_mono (e - 1) (e' - 1) n Hn ltac:(lia)) as Hhi.
  pose proof (Hlo 17 ltac:(lia)). pose proof (Hlo 20 ltac:(lia)).
  pose proof (Hlo 23 ltac:(lia)). pose proof (Hlo 26 ltac:(lia)).
  pose proof (Hhi 17 ltac:(lia)). pose proof (Hhi 20 ltac:(lia)).
  pose proof (Hhi 23 ltac:(lia)). pose proof (Hhi 26 ltac:(lia)).
  lia.
Qed.

Lemma region2bin_mono_witness : _region2bin 100 105 ⊆ _region2bin 0 1000.
Proof. apply region2bin_mono; lia. Defined.

(** Below 2^29 the levels keep to disjoint ranges of bin numbers, so the
    bin tells the level: 585..4680 for an interval inside one 2^17 chunk,
    73..584 inside one 2^20 chunk, 9..72 inside one 2^23 chunk, 1..8 inside
    one 2^26 chunk, and 0 otherwise. *)
Theorem ucscbin_levels s e :
  0 <= s < e -> e <= 2 ^ 29 ->
  let bin := _ucscbin s e in
  (585 <= bin < 4681 <-> Z.shiftr s 17 = Z.shiftr (e - 1) 17)
  /\ (73 <= bin < 585 <->
      Z.shiftr s 17 <> Z.shiftr (e - 1) 17 /\ Z.shiftr s 20 = Z.shiftr (e - 1) 20)
  /\ (9 <= bin < 73 <->
      Z.shiftr s 20 <> Z.shiftr (e - 1) 20 /\ Z.shiftr s 23 = Z.shiftr (e - 1) 23)
  /\ (1 <= bin < 9 <->
      Z.shiftr s 23 <> Z.shiftr (e - 1) 23 /\ Z.shiftr s 26 = Z.shiftr (e - 1) 26)
  /\ (bin = 0 <-> Z.shiftr s 26 <> Z.shiftr (e - 1) 26).
Proof.
  intros Hse He. cbv zeta.
  pose proof (shiftr_lt_pow2 s 17 12 ltac:(lia) ltac:(lia) ltac:(lia)) as B17.
  pose proof (shiftr_lt_pow2 s 20 9 ltac:(lia) ltac:(lia) ltac:(lia)) as B20.
  pose proof (shiftr_lt_pow2 s 23 6 ltac:(lia) ltac:(lia) ltac:(lia)) as B23.
  pose proof (shiftr_lt_pow2 s 26 3 ltac:(lia) ltac:(lia) ltac:(lia)) as B26.
  pose proof (shiftr_lt_pow2 s 29 0 ltac:(lia) ltac:(lia) ltac:(lia)) as B29.
  pose proof (shiftr_lt_pow2 (e - 1) 29 0 ltac:(lia) ltac:(lia) ltac:(lia)) as C29.
  change (2 ^ 12) with 4096 in B17. change (2 ^ 9) with 512 in B20.
  change (2 ^ 6) with 64 in B23. change (2 ^ 3) with 8 in B26.
  change (2 ^ 0) with 1 in B29, C29.
  pose proof (shiftr_coarser_eq s (e - 1) 17 ltac:(lia)) as E17.
  pose proof (shiftr_coarser_eq s (e - 1) 20 ltac:(lia)) as E20.
  pose proof (shiftr_coarser_eq s (e - 1) 23 ltac:(lia)) as E23.
  change (17 + 3) with 20 in *. change (20 + 3) with 23 in *.
  change (23 + 3) with 26 in *.
  rewrite ucscbin_unfold.
  repeat case_decide; repeat split; intros; try lia.
Qed.

Lemma ucscbin_levels_witness :
  585 <= _ucscbin 100 105 < 4681 <-> Z.shiftr 100 17 = Z.shiftr (105 - 1) 17.
Proof. apply (ucscbin_levels 100 105); lia. Defined.

End BinningMore.

(** ** More on searching *)

Module SearchMore.
Import SearchFacts.

(** On an entry that spans at least one position, the coordinate test of
    the query is the overlap test. *)
Lemma where_clause_overlaps exonstart exonend bin rstart rend offset :
  exonstart < exonend -> rstart <= rend ->
  where_clause exonstart exonend (bin, rstart, rend, offset) = true <->
  bin ∈ Binning._region2bin exonstart exonend
  /\ overlaps (exonstart, exonend) (bin, rstart, rend, offset).
Proof.
  intros Hexon Hrow. unfold where_clause, overlaps. cbn [fst snd].
  rewrite andb_true_iff, orb_true_iff, !bool_decide_eq_true. intuition lia.
Qed.

(** For an index whose entries carry the bin of their span and lie below
    2^30, the rows the query returns for an exon are exactly the stored
    entries that overlap it. *)
Theorem exon_hits_overlapping db rows exon rstart rend offset :
  offset_data db = Some rows ->
  0 <= exon.1 < exon.2 ->
  Forall (fun r : row => let '(bin, s, e, _) := r in
            bin = Binning._ucscbin s (e + 1) /\ 0 <= s <= e /\ e < 2 ^ 30) rows ->
  (rstart, rend, offset) ∈ exon_hits db exon <->
  exists bin, (bin, rstart, rend, offset) ∈ rows
              /\ overlaps exon (bin, rstart, rend, offset).
Proof.
  intros Hrows Hexon Hbuilt. rewrite elem_of_exon_hits.
  rewrite Forall_forall in Hbuilt. destruct exon as [exonstart exonend].
  cbn [fst snd] in *. split.
  - intros (rows' & bin & Hrows' & Hin & Hwhere). exists bin. split; [congruence|].
    assert (rows' = rows) as -> by congruence.
    destruct (Hbuilt _ Hin) as (_ & Hspan & _).
    apply where_clause_overlaps in Hwhere; [tauto|lia..].
  - intros (bin & Hin & Hover). exists rows, bin. repeat split; [done..|].
    destruct (Hbuilt _ Hin) as (-> & Hspan & Hbound).
    apply where_clause_overlaps; [lia..|]. split; [|done].
    unfold overlaps in Hover. cbn [fst snd] in Hover.
    apply BinningMore.overlapping_entry_is_candidate; lia.
Qed.

Lemma exon_hits_overlapping_witness :
  (100, 104, 0) ∈ exon_hits Sample.index (98, 103) <->
  exists bin, (bin, 100, 104, 0) ∈ [(585, 100, 104, 0); (585, 200, 204, 60)]
              /\ overlaps (98, 103) (bin, 100, 104, 0).
Proof.
  apply (exon_hits_overlapping Sample.index
           [(585, 100, 104, 0); (585, 200, 204, 60)] (98, 103) 100 104 0).
  - reflexivity.
  - cbn. lia.
  - repeat constructor; cbn; lia.
Defined.

Lemma elem_of_concat {A : Type} (x : A) (ls : list (list A)) :
  x ∈ concat ls <-> exists l, x ∈ l /\ l ∈ ls.
Proof.
  induction ls as [|l ls IH]; cbn [concat].
  - split; [by intros ?%elem_of_nil | by intros (l & _ & ?%elem_of_nil)].
  - rewrite elem_of_app, IH. split.
    + intros [Hx|(l' & Hx & Hl')]; [exists l | exists l']; split; [done|left|done|by right].
    + intros (l' & Hx & [->|Hl']%elem_of_cons); [by left|right; by exists l'].
Qed.

Section Fetched.

Variables (maf target : str) (db : Store).

Lemma check_fetched_ok rec_start rec_end recs :
  check_fetched target rec_start rec_end recs = Ok tt ->
  forall r, r ∈ recs -> id r = target ->
    exists anno, annotations r = Some anno
                 /\ start anno = rec_start
                 /\ start anno + size anno - 1 = rec_end.
Proof.
  induction recs as [|record recs IH]; cbn [check_fetched].
  - by intros _ r ?%elem_of_nil.
  - intros H. apply SplicerFacts.bind_ok in H as ([] & Hhead & Htail).
    intros r [->|Hr]%elem_of_cons Hid; [|by apply IH].
    rewrite bool_decide_eq_true_2 in Hhead by done.
    unfold annotation in Hhead. destruct (annotations record) as [anno|]; [|done].
    cbn in Hhead. case_bool_decide as Hcoords; [|done].
    exists anno. tauto.
Qed.

(** Every block [search] yields was read at the offset of a row returned
    for one of the query intervals, and each of its rows of the reference
    sequence carries that row's start and end. *)
Theorem search_blocks_match_index starts ends blocks err :
  search maf target db starts ends = (blocks, err) ->
  Forall (fun block =>
            exists exon rstart rend offset,
              exon ∈ exons_of starts ends
              /\ (rstart, rend, offset) ∈ exon_hits db exon
              /\ _get_record maf offset = Ok block
              /\ forall r, r ∈ records block -> id r = target ->
                   exists anno, annotations r = Some anno
                                /\ start anno = rstart
                                /\ start anno + size anno - 1 = rend)
         blocks.
Proof.
  unfold search. case_bool_decide; [intros [= <- <-]; constructor|].
  case_bool_decide; [intros [= <- <-]; constructor|].
  intros (fetched & [rest Hprefix] & Hall & _)%search_exons_spec.
  apply Forall_forall. intros block (i & Hi)%list_elem_of_lookup.
  destruct (Forall2_lookup_r _ _ _ _ _ Hall Hi) as ([[rstart rend] offset] & Hh & Hfetch).
  assert ((rstart, rend, offset) ∈ concat (exon_hits db <$> exons_of starts ends)) as Hin.
  { rewrite Hprefix. apply elem_of_app. left. by eapply list_elem_of_lookup_2. }
  apply elem_of_concat in Hin as (hits & Hin & Hhits).
  apply list_elem_of_fmap in Hhits as (exon & -> & Hexon).
  exists exon, rstart, rend, offset. split; [done|]. split; [done|].
  unfold fetch_hit in Hfetch.
  apply SplicerFacts.bind_ok in Hfetch as (fetched_block & Hget & Hfetch).
  apply SplicerFacts.bind_ok in Hfetch as ([] & Hcheck & [= <-]).
  split; [done|]. by apply check_fetched_ok.
Qed.

End Fetched.

Lemma search_blocks_match_index_witness :
  Forall (fun block =>
            exists exon rstart rend offset,
              exon ∈ exons_of [200; 100] [205; 105]
              /\ (rstart, rend, offset) ∈ exon_hits Sample.index exon
              /\ _get_record Sample.maf_text offset = Ok block
              /\ forall r, r ∈ records block -> id r = Sample.target ->
                   exists anno, annotations r = Some anno
                                /\ start anno = rstart
                                /\ start anno + size anno - 1 = rend)
    (search Sample.maf_text Sample.target Sample.index [200; 100] [205; 105]).1.
Proof.
  apply (search_blocks_match_index Sample.maf_text Sample.target Sample.index
           [200; 100] [205; 105] _ None).
  vm_compute. reflexivity.
Defined.

End SearchMore.

(** ** Integers as text *)

Module IntFacts.

Lemma digit_not_space c d : digit_value c = Some d -> is_space c = false.
Proof.
  unfold digit_value, is_space. cbv zeta.
  destruct ((48 <=? nat_of_ascii c)%nat) eqn:H48; [|done].
  destruct ((nat_of_ascii c <=? 57)%nat) eqn:H57; [|done]. intros _.
  apply Nat.leb_le in H48, H57.
  rewrite (proj2 (Nat.leb_gt (nat_of_ascii c) 13)) by lia.
  rewrite (proj2 (Nat.leb_gt (nat_of_ascii c) 32)) by lia.
  rewrite (proj2 (Nat.eqb_neq (nat_of_ascii c) 133)) by lia.
  rewrite (proj2 (Nat.eqb_neq (nat_of_ascii c) 160)) by lia.
  by rewrite !andb_false_r.
Qed.

Lemma lstrip_id s : (forall c rest, s = c :: rest -> is_space c = false) -> lstrip s = s.
Proof. destruct s as [|c rest]; [done|]. intros H. cbn. by rewrite (H c rest). Qed.

(** Text without whitespace is left alone by [strip]. *)
Lemma strip_id s : Forall (fun c => is_space c = false) s -> strip s = s.
Proof.
  intros Hs. unfold strip. rewrite (lstrip_id s).
  - rewrite lstrip_id; [by rewrite reverse_involutive|].
    intros c rest Hrev. apply Forall_reverse in Hs. rewrite Hrev in Hs.
    by apply Forall_cons in Hs as [? _].
  - intros c rest ->. by apply Forall_cons in Hs as [? _].
Qed.

Lemma pretty_N_char_digit d : (d < 10)%N -> digit_value (pretty_N_char d) = Some (Z.of_N d).
Proof.
  intros Hd.
  assert (d = 0 \/ d = 1 \/ d = 2 \/ d = 3 \/ d = 4 \/ d = 5 \/ d = 6 \/ d = 7
          \/ d = 8 \/ d = 9)%N as H by lia.
  repeat (destruct H as [->|H]; [reflexivity|]). by subst d.
Qed.

(** The digits [pretty] puts in front of [s] add their value in front of
    the value of [s]. *)
Lemma digits_from_pretty_N_go x s k v :
  0 <= k ->
  (forall acc, digits_from acc (s2l s) = Some (acc * 10 ^ k + v)) ->
  exists k', 0 <= k'
    /\ forall acc, digits_from acc (s2l (pretty_N_go x s))
                   = Some (acc * 10 ^ k' + (Z.of_N x * 10 ^ k + v)).
Proof.
  revert s k v. induction (N.lt_wf_0 x) as [x _ IH]. intros s k v Hk Hs.
  destruct (decide (x = 0%N)) as [->|Hx].
  - rewrite pretty_N_go_0. exists k. split; [done|]. intros acc. rewrite Hs. f_equal; lia.
  - rewrite pretty_N_go_step by lia.
    destruct (IH (x `div` 10)%N ltac:(apply N.div_lt; lia)
                (String (pretty_N_char (x `mod` 10)) s) (k + 1)
                (Z.of_N (x `mod` 10) * 10 ^ k + v) ltac:(lia)) as (k' & Hk' & Hgo).
    + intros acc. change (s2l (String ?c ?t)) with (c :: s2l t).
      cbn [digits_from]. rewrite pretty_N_char_digit by (apply N.mod_lt; lia).
      rewrite Hs. f_equal; rewrite ?Z.pow_add_r by lia; lia.
    + exists k'. split; [done|]. intros acc. rewrite Hgo. f_equal.
      rewrite Z.pow_add_r by lia.
      pose proof (N.div_mod x 10 ltac:(lia)) as Hdm.
      assert (Z.of_N x = 10 * Z.of_N (x `div` 10) + Z.of_N (x `mod` 10)) as -> by lia.
      lia.
Qed.

Lemma pretty_N_go_digits x s :
  Forall (fun c => is_Some (digit_value c)) (s2l s) ->
  Forall (fun c => is_Some (digit_value c)) (s2l (pretty_N_go x s)).
Proof.
  revert s. induction (N.lt_wf_0 x) as [x _ IH]. intros s Hs.
  destruct (decide (x = 0%N)) as [->|Hx]; [by rewrite pretty_N_go_0|].
  rewrite pretty_N_go_step by lia. apply IH; [apply N.div_lt; lia|].
  change (s2l (String ?c ?t)) with (c :: s2l t). constructor; [|done].
  rewrite pretty_N_char_digit by (apply N.mod_lt; lia). by eexists.
Qed.

Lemma pretty_N_go_nonempty x s : (0 < x)%N -> s2l (pretty_N_go x s) <> [].
Proof.
  revert s. induction (N.lt_wf_0 x) as [x _ IH]. intros s Hx.
  rewrite pretty_N_go_step by done.
  destruct (decide (x `div` 10 = 0)%N) as [->|Hdiv].
  - by rewrite pretty_N_go_0.
  - apply IH; [apply N.div_lt; lia | by apply N.neq_0_lt_0].
Qed.

(** The decimal text of a positive number: digits only, at least one, and
    read back as the number. *)
Lemma unsigned_int_pretty p :
  let ds := s2l (pretty (N.pos p)) in
  Forall (fun c => is_Some (digit_value c)) ds
  /\ ds <> []
  /\ unsigned_int ds = Some (Z.pos p).
Proof.
  cbv zeta. unfold pretty, pretty_N. rewrite decide_False by done.
  split; [by apply pretty_N_go_digits|].
  split; [by apply pretty_N_go_nonempty|].
  destruct (digits_from_pretty_N_go (N.pos p) "" 0 0 ltac:(lia)) as (k' & _ & Hgo).
  { intros acc. cbn. f_equal; lia. }
  unfold unsigned_int.
  destruct (s2l (pretty_N_go (N.pos p) "")) eqn:Hds;
    [by destruct (pretty_N_go_nonempty (N.pos p) "" ltac:(lia))|].
  rewrite Hgo. f_equal; cbn; lia.
Qed.

(** Without a sign in front, [int] reads the digits. *)
Lemma py_int_unsigned s c rest n :
  strip s = c :: rest -> is_Some (digit_value c) ->
  unsigned_int (c :: rest) = Some n ->
  py_int s = Ok n.
Proof.
  intros Hstrip [d Hd] Hn. unfold py_int. rewrite Hstrip. cbv zeta.
  assert (c <> "-"%char /\ c <> "+"%char) as [Hminus Hplus]
    by (split; intros ->; discriminate Hd).
  destruct c as [[] [] [] [] [] [] [] []]; try (by rewrite Hn); done.
Qed.

(** [int(str(n)) == n]. *)
Lemma py_int_str_of_Z n : py_int (str_of_Z n) = Ok n.
Proof.
  unfold str_of_Z. destruct n as [|p|p].
  - reflexivity.
  - destruct (unsigned_int_pretty p) as (Hdigits & Hne & Hvalue).
    change (pretty (Z.pos p)) with (pretty (N.pos p)).
    destruct (s2l (pretty (N.pos p))) as [|c rest] eqn:Hds; [done|].
    apply (py_int_unsigned _ c rest); [|by apply Forall_cons in Hdigits as [? _]|done].
    apply strip_id. eapply Forall_impl; [exact Hdigits|].
    intros c' [d Hd]. by eapply digit_not_space.
  - destruct (unsigned_int_pretty p) as (Hdigits & Hne & Hvalue).
    change (s2l (pretty (Z.neg p))) with ("-"%char :: s2l (pretty (N.pos p))).
    unfold py_int. rewrite strip_id.
    + by rewrite Hvalue.
    + constructor; [done|]. eapply Forall_impl; [exact Hdigits|].
      intros c' [d Hd]. by eapply digit_not_space.
Qed.

End IntFacts.

(** ** More on building and opening the index *)

Module IndexerMore.
Import IndexerFacts.

Lemma index_s_line_row target offset line bin s e o :
  index_s_line target offset line = Ok (Some (bin, s, e, o)) ->
  o = offset /\ bin = Binning._ucscbin s (e + 1) /\ s <= e + 1.
Proof.
  unfold index_s_line. intros H.
  apply SplicerFacts.bind_ok in H as (f1 & _ & H).
  case_bool_decide; [|done].
  apply SplicerFacts.bind_ok in H as (f2 & _ & H).
  apply SplicerFacts.bind_ok in H as (start_ & _ & H).
  apply SplicerFacts.bind_ok in H as (f3 & _ & H).
  apply SplicerFacts.bind_ok in H as (size_ & _ & H).
  apply SplicerFacts.bind_ok in H as (f6 & _ & H).
  case_bool_decide as Hsize; [done|]. cbv zeta in H.
  injection H as <- <- <- <-. repeat split. unfold len in Hsize. lia.
Qed.




Lemma text_line_plain raw : "013"%char ∉ raw -> text_line raw = raw.
Proof.
  intros Hcr. unfold text_line. destruct (reverse raw) as [|c rest] eqn:Hrev; [done|].
  assert (Hin : forall x, x ∈ c :: rest -> x <> "013"%char).
  { intros x Hx Heq. subst x. apply Hcr. rewrite <- Hrev in Hx.
    by rewrite elem_of_reverse in Hx. }
  rewrite bool_decide_eq_false_2 by (apply Hin; left).
  case_bool_decide; [|done]. destruct rest as [|c' rest']; [done|].
  rewrite bool_decide_eq_false_2; [done|]. apply Hin. right. left.
Qed.








(** In a file whose carriage returns are all followed by a line feed, no
    piece ends with a carriage return. *)
Lemma rawlines_from_no_lone_cr cur content :
  (head cur = Some "013"%char -> head content = Some "010"%char) ->
  no_lone_cr content = true ->
  Forall (fun raw => last raw <> Some "013"%char) (rawlines_from cur content).
Proof.
  revert cur. induction content as [|c content IH]; intros cur Hcur Hcontent;
    cbn [rawlines_from].
  - destruct cur as [|c cur]; [constructor|]. constructor; [|constructor].
    rewrite last_reverse. intros Hhead. by specialize (Hcur Hhead).
  - case_bool_decide as Hlf; [|case_bool_decide as Hhead];
      cbn [no_lone_cr] in Hcontent; apply andb_true_iff in Hcontent as [Hc Hcontent].
    + subst c. constructor; [by rewrite last_reverse|by apply IH].
    + specialize (Hcur Hhead). injection Hcur as ->. done.
    + apply IH; [|done]. cbn [head]. intros [= ->].
      rewrite bool_decide_eq_true_2 in Hc by done. cbn in Hc.
      by apply bool_decide_eq_true in Hc.
Qed.

(** A line is not empty and not longer than its piece. *)
Lemma text_line_bounds raw : raw <> [] -> 0 < len (text_line raw) <= len raw.
Proof.
  intros Hraw. pose proof (text_line_len raw) as Hlen.
  assert (0 < len raw) by (unfold len; destruct raw; [done|cbn; lia]).
  case_bool_decide as Hcrlf; [|lia].
  destruct Hcrlf as [k ->]. unfold len in *. rewrite length_app in *. cbn in *. lia.
Qed.

(** The offsets yielded from a given point of a file whose pieces do not
    end with a carriage return: they increase, and those of the blocks
    that begin after [pos] bytes are not below [pos]. *)
Lemma maf_indexer_from_sorted target opaque raws pos pending entries err :
  Forall (fun raw => raw <> []
                     /\ (head raw = Some "013"%char -> text_line raw = ["010"%char])) raws ->
  Forall (fun raw => last raw <> Some "013"%char) raws ->
  maf_indexer_from target pending (with_offsets opaque pos raws) = (entries, err) ->
  match pending with
  | None =>
      Forall (fun o => pos <= o) (row_offset <$> entries)
      /\ StronglySorted Z.lt (row_offset <$> entries)
  | Some o =>
      entries = []
      \/ exists entry more,
           entries = entry :: more /\ row_offset entry = o
           /\ Forall (fun o' => pos <= o') (row_offset <$> more)
           /\ StronglySorted Z.lt (row_offset <$> more)
  end.
Proof.
  intros Hpieces Hends. revert pos pending entries err.
  induction raws as [|raw raws IH]; intros pos pending entries err.
  - cbn. destruct pending; intros [= <- <-]; [by left|]. split; constructor.
  - apply Forall_cons in Hpieces as [[Hne _] Hpieces].
    apply Forall_cons in Hends as [Hend Hends].
    specialize (IH Hpieces Hends).
    pose proof (text_line_bounds raw Hne) as Hlen.
    assert (Hlater : forall l, Forall (fun o => pos + len raw <= o) l ->
                               Forall (fun o => pos <= o) l).
    { intros l Hl. eapply Forall_impl; [exact Hl|]. cbn. lia. }
    cbn [with_offsets maf_indexer_from]. destruct pending as [o|].
    + destruct (bool_decide (strip (text_line raw) = [])
                || startswith (s2l "a") (text_line raw)); [intros [= <- <-]; by left|].
      destruct (startswith (s2l "s") (text_line raw)).
      * destruct (index_s_line target o (text_line raw)) as [e|[[[[bin s] e] o']|]] eqn:Hline.
        -- intros [= <- <-]. by left.
        -- destruct (maf_indexer_from target None
                       (with_offsets opaque (pos + len raw) raws)) as [more err'] eqn:Hmore.
           intros [= <- <-]. apply IH in Hmore as [Hge Hsorted].
           apply index_s_line_row in Hline as (-> & _ & _).
           right. eexists _, more. split; [done|]. split; [done|]. split; [|done].
           by apply Hlater.
        -- intros Hrun. apply IH in Hrun as [->|(entry & more & -> & Ho & Hge & Hsorted)];
             [by left|].
           right. exists entry, more. split; [done|]. split; [done|]. split; [|done].
           by apply Hlater.
      * intros Hrun. apply IH in Hrun as [->|(entry & more & -> & Ho & Hge & Hsorted)];
          [by left|].
        right. exists entry, more. split; [done|]. split; [done|]. split; [|done].
        by apply Hlater.
    + destruct (startswith (s2l "a") (text_line raw)) eqn:Ha.
      * destruct raws as [|raw' raws'].
        { cbn. intros [= <- <-]. split; constructor. }
        destruct (decide (head raw' = Some "013"%char)) as [Hcr|Hcr].
        { apply Forall_cons in Hpieces as [[_ Hblank] _].
          cbn [with_offsets maf_indexer_from]. rewrite (Hblank Hcr).
          rewrite (bool_decide_eq_true_2 (strip ["010"%char] = [])) by done.
          cbn [orb]. intros [= <- <-]. split; constructor. }
        assert (tell opaque (pos + len raw) raw (head (raw' :: raws')) = pos + len raw)
          as ->.
        { unfold tell. rewrite pending_cr_false; [done|done|].
          by intros r [= <-]. }
        intros Hrun. apply IH in Hrun as [->|(entry & more & -> & Ho & Hge & Hsorted)];
          [split; constructor|].
        rewrite fmap_cons, Ho. split.
        -- constructor; [lia|]. by apply Hlater.
        -- constructor; [done|]. eapply Forall_impl; [exact Hge|]. cbn. lia.
      * intros Hrun. apply IH in Hrun as [Hge Hsorted]. split; [|done].
        by apply Hlater.
Qed.

(** In a file whose carriage returns are all followed by a line feed, the
    offsets of the rows the builder yields increase strictly: no two rows
    share an offset. *)
Theorem maf_indexer_offsets_increase maf_fp target tell_opaque :
  no_lone_cr maf_fp = true ->
  StronglySorted Z.lt (row_offset <$> (__maf_indexer maf_fp target tell_opaque).1).
Proof.
  intros Hcr. unfold __maf_indexer.
  destruct (maf_indexer_from target None
              (with_offsets (tell_opaque maf_fp) 0 (rawlines maf_fp)))
    as [entries err] eqn:Hout.
  apply (maf_indexer_from_sorted target _ _ 0 None) in Hout as [_ Hsorted]; [done| |].
  - apply rawlines_pieces.
  - by apply rawlines_from_no_lone_cr.
Qed.

Lemma maf_indexer_offsets_increase_witness :
  StronglySorted Z.lt
    (row_offset <$> (__maf_indexer Sample.crlf_text Sample.target Sample.tell_cookie).1).
Proof.
  apply (maf_indexer_offsets_increase Sample.crlf_text Sample.target Sample.tell_cookie).
  reflexivity.
Defined.

(** Without the condition the offsets need not increase: see
    [IndexerFacts.maf_indexer_lone_cr]. *)
Example offsets_not_increasing :
  no_lone_cr Sample.lone_cr_text = false
  /\ ~ StronglySorted Z.lt
         (row_offset <$>
            (__maf_indexer Sample.lone_cr_text Sample.target Sample.tell_cookie).1).
Proof.
  split; [reflexivity|]. rewrite maf_indexer_lone_cr. cbn.
  intros Hsorted. apply StronglySorted_inv in Hsorted as [_ Hlt].
  apply Forall_cons in Hlt as [Hlt _]. revert Hlt. vm_compute. congruence.
Qed.

(** Two steps at a time. *)
Lemma list_ind_pairs {A : Type} (P : list A -> Prop) :
  P [] -> (forall x, P [x]) -> (forall x y l, P l -> P (y :: l) -> P (x :: y :: l)) ->
  forall l, P l.
Proof.
  intros Hnil Hone Hstep l.
  assert (P l /\ forall x, P (x :: l)) as [H _]; [|exact H].
  induction l as [|y l [IH1 IH2]]; [by split|]. split; [apply IH2|].
  intros x. by apply Hstep.
Qed.

Lemma sql_unquote_cons c name :
  sql_unquote (c :: name)
  = if bool_decide (c = "'"%char) then
      match name with
      | c' :: name' =>
          if bool_decide (c' = "'"%char) then ("'"%char ::.) <$> sql_unquote name'
          else None
      | [] => None
      end
    else if bool_decide (c = "000"%char) then None
    else (c ::.) <$> sql_unquote name.
Proof. done. Qed.

(** A name without apostrophes and NUL characters is stored as it is. *)
Lemma sql_unquote_plain name :
  "'"%char ∉ name -> "000"%char ∉ name -> sql_unquote name = Some name.
Proof.
  induction name as [|c name IH]; [done|]. intros Hq Hnul.
  apply not_elem_of_cons in Hq as [Hq Hq'].
  apply not_elem_of_cons in Hnul as [Hnul Hnul'].
  rewrite sql_unquote_cons, !bool_decide_eq_false_2 by done.
  by rewrite IH.
Qed.

(** The value of a literal is shorter than a name with an apostrophe. *)
Lemma sql_unquote_length name value :
  sql_unquote name = Some value ->
  (length value <= length name)%nat
  /\ ("'"%char ∈ name -> (length value < length name)%nat).
Proof.
  revert value.
  induction name as [|c|c c' name IH IH'] using list_ind_pairs; intros value.
  - intros [= <-]. split; [done|]. by intros ?%elem_of_nil.
  - rewrite sql_unquote_cons. repeat case_bool_decide; try done.
    intros [= <-]. split; [done|].
    intros [Heq|?%elem_of_nil]%elem_of_cons; [congruence|done].
  - rewrite sql_unquote_cons. case_bool_decide as Hc.
    + case_bool_decide as Hc'; [|done].
      destruct (sql_unquote name) as [v|] eqn:Hv; [|done].
      intros [= <-]. destruct (IH v eq_refl) as [Hle _]. cbn. split; lia.
    + case_bool_decide as Hnul; [done|].
      destruct (sql_unquote (c' :: name)) as [v|] eqn:Hv; [|done].
      intros [= <-]. destruct (IH' v eq_refl) as [Hle Hlt]. cbn in *. split; [lia|].
      intros [Heq|Hin]%elem_of_cons; [congruence|]. specialize (Hlt Hin). lia.
Qed.

Section Open.

Variables (tell_opaque : str -> Z -> Z) (sqlite_other : str -> result str).
Variables (maf_file maf_fp target : str).

(** Opening the store that a build leaves, the names being stored as
    [filename_value] and [target_value]. *)
Lemma check_after_build (entries : list row) (target_value filename_value : str) :
  __check_existing_db maf_file target
    {| meta_data :=
         Some [(s2l "version", s2l "1");
               (s2l "record_count", str_of_Z (len entries));
               (s2l "target_seqname", target_value);
               (s2l "filename", filename_value)];
       offset_data := Some entries |}
  = if bool_decide (filename_value = maf_file /\ target_value = target)
    then Ok (len entries) else Raise ValueError.
Proof.
  unfold __check_existing_db, check_existing_db_try.
  rewrite !StoreFacts.select_meta_stored, StoreFacts.select_count_stored.
  change (stored _ (s2l "version")) with (Some (s2l "1")).
  change (stored _ (s2l "filename")) with (Some filename_value).
  change (stored _ (s2l "target_seqname")) with (Some target_value).
  change (stored _ (s2l "record_count")) with (Some (str_of_Z (len entries))).
  change (stored_entries _) with (Some (len entries)).
  cbn [mbind result_bind].
  change (py_int (s2l "1")) with (Ok 1 : result Z). cbn [mbind result_bind].
  rewrite (bool_decide_eq_false_2 (1 <> MAFINDEX_VERSION)) by (intros H; by apply H).
  destruct (decide (filename_value = maf_file)) as [->|Hf].
  2:{ rewrite (bool_decide_eq_true_2 (filename_value <> maf_file)) by done.
      rewrite bool_decide_eq_false_2; [done|]. by intros [? _]. }
  rewrite (bool_decide_eq_false_2 (maf_file <> maf_file)) by (intros H; by apply H).
  destruct (decide (target_value = target)) as [->|Ht].
  2:{ rewrite (bool_decide_eq_true_2 (target_value <> target)) by done.
      rewrite bool_decide_eq_false_2; [done|]. by intros [_ ?]. }
  rewrite (bool_decide_eq_false_2 (target <> target)) by (intros H; by apply H).
  rewrite IntFacts.py_int_str_of_Z. cbn [mbind result_bind].
  rewrite (bool_decide_eq_false_2 (len entries = -1)) by (unfold len; lia).
  rewrite (bool_decide_eq_false_2 (len entries <> len entries)) by (intros H; by apply H).
  by rewrite bool_decide_eq_true_2.
Qed.

(** An index that was built passes the checks made on reopening it, for
    the same file name and reference sequence, with the same record count,
    when neither name holds an apostrophe or a NUL character. *)
Theorem reopen_after_build db n :
  "'"%char ∉ maf_file -> "000"%char ∉ maf_file ->
  "'"%char ∉ target -> "000"%char ∉ target ->
  __init__ tell_opaque sqlite_other None maf_file maf_fp target = Ok (db, n) ->
  __init__ tell_opaque sqlite_other (Some db) maf_file maf_fp target = Ok (db, n).
Proof.
  intros Hfq Hfn Htq Htn. cbn [__init__]. unfold __make_new_index, insert_quoted.
  rewrite (sql_unquote_plain _ Hfq Hfn), (sql_unquote_plain _ Htq Htn).
  cbn [mbind result_bind].
  destruct (__maf_indexer maf_fp target tell_opaque) as [entries [e|]]; [done|].
  cbv zeta. intros [= <- <-]. rewrite check_after_build.
  by rewrite bool_decide_eq_true_2.
Qed.

(** A name in which every apostrophe is doubled, and which has one, is
    stored with one apostrophe for each pair: the index is built, and is
    refused when it is reopened under the same names. *)
Theorem doubled_apostrophe_not_reopened db n target_value filename_value :
  sql_unquote target = Some target_value ->
  sql_unquote maf_file = Some filename_value ->
  "'"%char ∈ target \/ "'"%char ∈ maf_file ->
  __init__ tell_opaque sqlite_other None maf_file maf_fp target = Ok (db, n) ->
  stored db (s2l "target_seqname") = Some target_value
  /\ stored db (s2l "filename") = Some filename_value
  /\ __init__ tell_opaque sqlite_other (Some db) maf_file maf_fp target = Raise ValueError.
Proof.
  intros Ht Hf Hquote. cbn [__init__]. unfold __make_new_index, insert_quoted.
  rewrite Ht, Hf. cbn [mbind result_bind].
  destruct (__maf_indexer maf_fp target tell_opaque) as [entries [e|]]; [done|].
  cbv zeta. intros [= <- <-]. split; [reflexivity|]. split; [reflexivity|].
  rewrite check_after_build. rewrite bool_decide_eq_false_2; [done|].
  intros [-> ->].
  destruct Hquote as [Hq|Hq].
  - apply sql_unquote_length in Ht as [_ Hlt]. specialize (Hlt Hq). lia.
  - apply sql_unquote_length in Hf as [_ Hlt]. specialize (Hlt Hq). lia.
Qed.

(** The record count of an index that opened, which is what [__len__]
    returns, is the number of stored entries, and is not negative. *)
Theorem len_is_entry_count existing db n :
  __init__ tell_opaque sqlite_other existing maf_file maf_fp target = Ok (db, n) ->
  stored_entries db = Some n /\ 0 <= n.
Proof.
  destruct existing as [db'|]; cbn [__init__].
  - intros H. apply SplicerFacts.bind_ok in H as (count & Hcheck & [= <- <-]).
    apply StoreFacts.check_existing_db_ok, StoreFacts.check_existing_db_try_ok in Hcheck
      as (_ & _ & _ & _ & _ & Hentries).
    split; [done|]. unfold stored_entries in Hentries.
    destruct (offset_data db') as [rows|]; [|done].
    injection Hentries as <-. unfold len. lia.
  - unfold __make_new_index. intros H.
    apply SplicerFacts.bind_ok in H as (target_value & _ & H).
    apply SplicerFacts.bind_ok in H as (filename_value & _ & H).
    destruct (__maf_indexer maf_fp target tell_opaque) as [entries [e|]]; [done|].
    injection H as <- <-. split; [reflexivity | unfold len; lia].
Qed.

End Open.

Lemma reopen_after_build_witness :
  __init__ Sample.tell_cookie Sample.sqlite_rejects (Some Sample.index) Sample.maf_name Sample.maf_text
    Sample.target
  = Ok (Sample.index, 2).
Proof.
  apply (reopen_after_build Sample.tell_cookie Sample.sqlite_rejects Sample.maf_name Sample.maf_text
           Sample.target Sample.index 2); [compute_done..|reflexivity].
Defined.

Lemma doubled_apostrophe_not_reopened_witness :
  exists db,
    __init__ Sample.tell_cookie Sample.sqlite_rejects None (s2l "it''s.maf") Sample.maf_text Sample.target
    = Ok (db, 2)
    /\ stored db (s2l "filename") = Some (s2l "it's.maf")
    /\ __init__ Sample.tell_cookie Sample.sqlite_rejects (Some db) (s2l "it''s.maf") Sample.maf_text
         Sample.target
       = Raise ValueError.
Proof.
  eexists. split; [reflexivity|].
  apply (doubled_apostrophe_not_reopened Sample.tell_cookie Sample.sqlite_rejects (s2l "it''s.maf")
           Sample.maf_text Sample.target _ 2 Sample.target (s2l "it's.maf"));
    [reflexivity | reflexivity | right; compute_done | reflexivity].
Defined.

Lemma len_is_entry_count_witness :
  stored_entries Sample.index = Some 2 /\ 0 <= 2.
Proof.
  apply (len_is_entry_count Sample.tell_cookie Sample.sqlite_rejects Sample.maf_name Sample.maf_text
           Sample.target None Sample.index 2).
  reflexivity.
Defined.

End IndexerMore.

(** ** More on the block parser *)

Module ParserMore.
Import ParserFacts.

Lemma lstrip_nil s : lstrip s = [] -> Forall (fun c => is_space c = true) s.
Proof.
  induction s as [|c s IH]; [constructor|]. cbn [lstrip].
  destruct (is_space c) eqn:Hc; [|done]. intros H. constructor; [done|by apply IH].
Qed.

(** A blank line holds whitespace only. *)
Lemma strip_nil s : strip s = [] -> Forall (fun c => is_space c = true) s.
Proof.
  unfold strip. intros H. apply (f_equal reverse) in H.
  rewrite reverse_involutive in H. cbn in H.
  apply lstrip_nil, Forall_reverse in H. rewrite reverse_involutive in H.
  clear -H. induction s as [|c s IH]; [constructor|]. cbn [lstrip] in H.
  destruct (is_space c) eqn:Hc.
  - constructor; [done|by apply IH].
  - by apply Forall_cons in H as [? _]; congruence.
Qed.

Lemma blank_startswith line p :
  strip line = [] -> is_space p = false -> startswith [p] line = false.
Proof.
  intros Hblank%strip_nil Hp. destruct line as [|c line]; [done|]. cbn.
  apply Forall_cons in Hblank as [Hc _].
  assert (p <> c) as Hne by (intros ->; congruence).
  by rewrite (bool_decide_eq_false_2 _ Hne).
Qed.

(** Inside a block, every blank line does what the end of the input does. *)
Lemma iter_step_blank seq_count st blank :
  strip blank = [] -> in_a_bundle st = true ->
  iter_step seq_count st blank = iter_step seq_count st [].
Proof.
  intros Hblank Hin. unfold iter_step. rewrite Hin.
  change (s2l "s") with ["s"%char]. change (s2l "i") with ["i"%char].
  change (s2l "e") with ["e"%char]. change (s2l "q") with ["q"%char].
  change (s2l "#") with ["#"%char].
  rewrite !(blank_startswith blank) by done.
  rewrite (bool_decide_eq_true_2 _ Hblank). done.
Qed.

Lemma iter_step_outside_eof seq_count st :
  in_a_bundle st = false -> iter_step seq_count st [] = Ok Break.
Proof. intros Hout. unfold iter_step. by rewrite Hout. Qed.

Lemma iter_step_outside_blank seq_count st blank :
  strip blank = [] -> in_a_bundle st = false -> blank <> [] ->
  iter_step seq_count st blank = Ok (Continue st).
Proof.
  intros Hblank Hout Hne. unfold iter_step. rewrite Hout.
  change (s2l "a") with ["a"%char]. change (s2l "#") with ["#"%char].
  rewrite !(blank_startswith blank) by done.
  by rewrite (bool_decide_eq_false_2 _ Hne).
Qed.

(** A blank line after the last block changes nothing: the end of the
    input ends a block that no blank line closed. *)
Theorem trailing_blank_optional seq_count st lines blank :
  strip blank = [] ->
  iter_run seq_count st (lines ++ [blank]) = iter_run seq_count st lines.
Proof.
  intros Hblank. revert st. induction lines as [|line lines IH]; intros st.
  - cbn [app iter_run]. destruct (in_a_bundle st) eqn:Hin.
    + rewrite (iter_step_blank _ _ _ Hblank Hin).
      destruct (iter_step seq_count st []) as [e|[st'| |]] eqn:Hstep; try done.
      by destruct (iter_step_eof _ _ _ Hstep).
    + destruct blank as [|c blank]; [by rewrite !(iter_step_outside_eof _ _ Hin)|].
      rewrite (iter_step_outside_blank _ _ _ Hblank Hin) by done.
      cbn [mbind result_bind]. by rewrite !(iter_step_outside_eof _ _ Hin).
  - cbn [app iter_run]. destruct (iter_step seq_count st line) as [e|[st'| |]]; cbn; done.
Qed.

Lemma trailing_blank_optional_witness :
  iter_run None iter_init
    ([s2l "a score=1"; s2l "s ref 100 5 + 1000 ACGTA"] ++ [s2l " "])
  = iter_run None iter_init [s2l "a score=1"; s2l "s ref 100 5 + 1000 ACGTA"].
Proof. apply trailing_blank_optional. reflexivity. Defined.

(** Before the first block, every line that is not empty and does not
    start with "a" is passed over, sequence lines included. *)
Theorem lines_before_first_block_skipped seq_count st junk lines :
  in_a_bundle st = false ->
  Forall (fun line => line <> [] /\ startswith (s2l "a") line = false) junk ->
  iter_run seq_count st (junk ++ lines) = iter_run seq_count st lines.
Proof.
  intros Hout. induction 1 as [|line junk [Hne Ha] _ IH]; [done|].
  cbn [app iter_run]. unfold iter_step at 1. rewrite Hout, Ha.
  destruct (startswith (s2l "#") line); [done|].
  by rewrite bool_decide_eq_false_2.
Qed.

Lemma lines_before_first_block_skipped_witness :
  iter_run None iter_init
    ([s2l "s ref 100 5 + 1000 ACGTA"; s2l "track name=x"] ++ [s2l "a score=1"])
  = iter_run None iter_init [s2l "a score=1"].
Proof.
  apply lines_before_first_block_skipped; [reflexivity|].
  repeat constructor; discriminate.
Defined.

Lemma parse_s_line_annotations recs line r :
  parse_s_line recs line = Ok r ->
  exists anno, annotations r = Some anno /\ (strand anno = 1 \/ strand anno = -1).
Proof.
  unfold parse_s_line. case_bool_decide as Hlen; [done|]. intros H.
  apply SplicerFacts.bind_ok in H as (f4 & _ & H). cbv zeta in H.
  apply SplicerFacts.bind_ok in H as (f2 & _ & H).
  apply SplicerFacts.bind_ok in H as (start_ & _ & H).
  apply SplicerFacts.bind_ok in H as (f3 & _ & H).
  apply SplicerFacts.bind_ok in H as (size_ & _ & H).
  apply SplicerFacts.bind_ok in H as (f5 & _ & H).
  apply SplicerFacts.bind_ok in H as (srcSize_ & _ & H).
  apply SplicerFacts.bind_ok in H as (sequence & _ & H).
  apply SplicerFacts.bind_ok in H as (sequence' & _ & H).
  apply SplicerFacts.bind_ok in H as (f1 & _ & [= <-]).
  eexists. split; [reflexivity|]. cbn [strand].
  repeat case_bool_decide; auto.
Qed.

(** The records gathered inside a block all come from sequence lines. *)
Lemma iter_run_yield seq_count st lines alignment :
  iter_run seq_count st lines = Ok (Some alignment) ->
  Forall (fun r => exists anno, annotations r = Some anno
                                /\ (strand anno = 1 \/ strand anno = -1))
    (bundle_records st) ->
  (forall n, seq_count = Some n -> len (records alignment) = n)
  /\ Forall (fun r => exists anno, annotations r = Some anno
                                   /\ (strand anno = 1 \/ strand anno = -1))
       (records alignment)
  /\ (forall r r', r ∈ records alignment -> r' ∈ records alignment ->
        length (seq r) = length (seq r')).
Proof.
  assert (Hyield : forall st line alignment,
            iter_step seq_count st line = Ok (Yield alignment) ->
            Forall (fun r => exists anno, annotations r = Some anno
                                          /\ (strand anno = 1 \/ strand anno = -1))
              (bundle_records st) ->
            (forall n, seq_count = Some n -> len (records alignment) = n)
            /\ Forall (fun r => exists anno, annotations r = Some anno
                                             /\ (strand anno = 1 \/ strand anno = -1))
                 (records alignment)
            /\ (forall r r', r ∈ records alignment -> r' ∈ records alignment ->
                  length (seq r) = length (seq r'))).
  { clear. intros st line alignment. unfold iter_step.
    destruct (in_a_bundle st).
    - destruct (startswith (s2l "s") line).
      { intros H. by apply SplicerFacts.bind_ok in H as (r & _ & [=]). }
      destruct (startswith (s2l "i") line); [done|].
      destruct (startswith (s2l "e") line); [done|].
      destruct (startswith (s2l "q") line); [done|].
      destruct (startswith (s2l "#") line); [done|].
      case_bool_decide as Hb; [|done]. intros H Hrecs.
      apply SplicerFacts.bind_ok in H as ([] & Hcount & H).
      apply SplicerFacts.bind_ok in H as (al & Hal & [= <-]). cbn [records].
      apply SplicerFacts.MultipleSeqAlignment_ok in Hal as (-> & _ & Hlen).
      split; [|done]. intros n ->. by case_bool_decide.
    - destruct (startswith (s2l "a") line).
      { case_bool_decide as Hb; [done|]. intros H.
        by apply SplicerFacts.bind_ok in H as (annos & _ & [=]). }
      destruct (startswith (s2l "#") line); [done|]. by case_bool_decide. }
  assert (Hnext : forall st line st',
            iter_step seq_count st line = Ok (Continue st') ->
            Forall (fun r => exists anno, annotations r = Some anno
                                          /\ (strand anno = 1 \/ strand anno = -1))
              (bundle_records st) ->
            Forall (fun r => exists anno, annotations r = Some anno
                                          /\ (strand anno = 1 \/ strand anno = -1))
              (bundle_records st')).
  { clear. intros st line st'. unfold iter_step.
    destruct (in_a_bundle st).
    - destruct (startswith (s2l "s") line).
      { intros H Hrecs. apply SplicerFacts.bind_ok in H as (r & Hr & [= <-]).
        cbn [bundle_records]. apply Forall_app. split; [done|].
        constructor; [|constructor]. by eapply parse_s_line_annotations. }
      destruct (startswith (s2l "i") line); [by intros [= <-]|].
      destruct (startswith (s2l "e") line); [by intros [= <-]|].
      destruct (startswith (s2l "q") line); [by intros [= <-]|].
      destruct (startswith (s2l "#") line); [by intros [= <-]|].
      case_bool_decide as Hb; [|done]. intros H.
      apply SplicerFacts.bind_ok in H as ([] & _ & H).
      by apply SplicerFacts.bind_ok in H as (al & _ & [=]).
    - destruct (startswith (s2l "a") line).
      { case_bool_decide as Hb; [done|]. intros H Hrecs.
        by apply SplicerFacts.bind_ok in H as (annos & _ & [= <-]). }
      destruct (startswith (s2l "#") line); [by intros [= <-]|].
      case_bool_decide; [done|]. by intros [= <-]. }
  revert st. induction lines as [|line lines IH]; intros st; cbn [iter_run].
  - intros H Hrecs. apply SplicerFacts.bind_ok in H as ([st'|al|] & Hstep & H);
      try done. injection H as <-. by eapply Hyield.
  - intros H Hrecs. apply SplicerFacts.bind_ok in H as ([st'|al|] & Hstep & H);
      try done.
    + eapply IH; [done|]. by eapply Hnext.
    + injection H as <-. by eapply Hyield.
Qed.

(** An alignment the parser yields has records of one length, each with
    its annotations and a strand that is 1 or -1, and exactly [seq_count]
    records when a count was asked for. *)
Theorem yielded_alignment_well_formed seq_count lines alignment :
  iter_run seq_count iter_init lines = Ok (Some alignment) ->
  (forall n, seq_count = Some n -> len (records alignment) = n)
  /\ Forall (fun r => exists anno, annotations r = Some anno
                                   /\ (strand anno = 1 \/ strand anno = -1))
       (records alignment)
  /\ (forall r r', r ∈ records alignment -> r' ∈ records alignment ->
        length (seq r) = length (seq r')).
Proof. intros H. eapply iter_run_yield; [done|constructor]. Qed.

Lemma yielded_alignment_well_formed_witness :
  let alignment := {| records := [Sample.ref_record];
                      _annotations := bundle_annotations Sample.in_block |} in
  (forall n, Some 1 = Some n -> len (records alignment) = n)
  /\ Forall (fun r => exists anno, annotations r = Some anno
                                   /\ (strand anno = 1 \/ strand anno = -1))
       (records alignment)
  /\ (forall r r', r ∈ records alignment -> r' ∈ records alignment ->
        length (seq r) = length (seq r')).
Proof.
  apply (yielded_alignment_well_formed (Some 1)
           [s2l "a score=1"; s2l "s ref 100 5 + 1000 ACGTA"]).
  vm_compute. reflexivity.
Defined.

End ParserMore.

(** ** More on the exon splicer *)

Module SplicerMore.
Import SplicerFacts.

Section Query.

Variable reverse_complement : str -> result str.
Variables (maf target : str) (db : Store).

(** A query with starts and ends of different lengths, or with an interval
    shorter than one position, makes [search] raise a [ValueError] before
    it yields anything, wherever the bad interval stands in the list; such
    a query, or a strand other than 1 and -1, makes [get_spliced] raise a
    [ValueError]. *)
Theorem invalid_query_rejected starts ends strand_ :
  (length starts <> length ends
   \/ Exists (fun exon : Z * Z => exon.2 - exon.1 < 1) (exons_of starts ends) ->
   search maf target db starts ends = ([], Some ValueError))
  /\ (~ (strand_ = 1 \/ strand_ = -1)
      \/ length starts <> length ends
      \/ Exists (fun exon : Z * Z => exon.2 - exon.1 < 1) (exons_of starts ends) ->
      get_spliced reverse_complement maf target db starts ends strand_
      = Raise ValueError).
Proof.
  assert (Hsearch : length starts <> length ends
            \/ Exists (fun exon : Z * Z => exon.2 - exon.1 < 1) (exons_of starts ends) ->
            search maf target db starts ends = ([], Some ValueError)).
  { intros Hbad. unfold search. case_bool_decide as Hlen; [done|].
    destruct Hbad as [Hbad|Hbad]; [done|]. by rewrite (bool_decide_eq_true_2 _ Hbad). }
  split; [done|]. intros Hbad. unfold get_spliced.
  case_bool_decide as Hstrand; [done|].
  destruct Hbad as [Hbad|Hbad]; [done|]. by rewrite (Hsearch Hbad).
Qed.

Lemma strand_record_id strand_ first_strand kv r :
  strand_record reverse_complement strand_ first_strand kv = Ok r -> id r = kv.1.
Proof.
  unfold strand_record. intros H. by apply bind_ok in H as (seq_ & _ & [= <-]).
Qed.

Lemma splice_texts_names_eq fetched exons st subseq :
  splice_texts target fetched exons = Ok (st, subseq) ->
  subseq.*1 = elements (list_to_set (C := gset str)
                          (fetched ≫= fun multiseq => id <$> records multiseq)).
Proof.
  unfold splice_texts. cbv zeta. intros H.
  apply bind_ok in H as (st' & _ & H).
  apply bind_ok in H as (target_split & _ & H).
  case_bool_decide as Hsize; [done|].
  apply bind_ok in H as (subseq' & Hmap & [= <- <-]).
  apply mapM_ok in Hmap.
  induction Hmap as [|seqid [k v] names subseq'' Hhead _ IH]; [done|].
  rewrite fmap_cons. cbn [fst]. f_equal; [|done].
  unfold splice_sequence in Hhead.
  by apply bind_ok in Hhead as (seq_split & _ & [= <- _]).
Qed.

(** The alignment [get_spliced] returns has one record per sequence
    identifier found in the fetched blocks, each identifier once; without
    a fetched block it has the reference identifier alone. *)
Theorem get_spliced_ids starts ends strand_ fetched al :
  search maf target db starts ends = (fetched, None) ->
  get_spliced reverse_complement maf target db starts ends strand_ = Ok al ->
  NoDup (id <$> records al)
  /\ forall name,
       name ∈ id <$> records al <->
       (fetched = [] /\ name = target)
       \/ exists block r, block ∈ fetched /\ r ∈ records block /\ id r = name.
Proof.
  intros Hsearch. unfold get_spliced. case_bool_decide as Hstrand; [done|].
  rewrite Hsearch. cbv zeta. case_bool_decide as Hnone.
  - destruct fetched; [|done]. rewrite MultipleSeqAlignment_single.
    intros [= <-]. cbn [records fmap list_fmap id]. split.
    + apply NoDup_singleton.
    + intros name. rewrite list_elem_of_singleton. split; [by left|].
      intros [[_ ->]|(block & r & ?%elem_of_nil & _)]; done.
  - intros H. apply bind_ok in H as ([fs subseq] & Hsplice & H).
    apply bind_ok in H as (recs & Hrecs & Hal).
    apply MultipleSeqAlignment_ok in Hal as (-> & _ & _).
    apply splice_ok in Hsplice as (st & target_seq & Htexts & _).
    pose proof (splice_texts_names _ _ _ _ _ Htexts) as Hnodup.
    pose proof (splice_texts_names_eq _ _ _ _ Htexts) as Hnames.
    assert (id <$> recs = subseq.*1) as Hids.
    { apply mapM_ok in Hrecs. clear -Hrecs.
      induction Hrecs as [|kv r subseq recs Hr _ IH]; [done|].
      rewrite !fmap_cons. f_equal; [|done]. by eapply strand_record_id. }
    rewrite Hids. split; [done|]. intros name. rewrite Hnames.
    rewrite elem_of_elements, elem_of_list_to_set, list_elem_of_bind. split.
    + intros (block & Hname & Hblock). right.
      apply list_elem_of_fmap in Hname as (r & -> & Hr). by exists block, r.
    + intros [[-> _]|(block & r & Hblock & Hr & <-)]; [done|].
      exists block. split; [|done]. apply list_elem_of_fmap. by exists r.
Qed.

(** What a block needs for the loop over the fetched blocks to go on: a
    row of the reference sequence with a strand, the one fixed by the
    blocks before it, or 1 or -1 when it is the first. *)
Lemma splice_block_ref_strand st block st' :
  splice_block target st block = Ok st' ->
  exists s,
    first_ref_strand target [block] = Some s
    /\ ref_first_strand st' = Some s
    /\ match ref_first_strand st with
       | Some s0 => s = s0
       | None => s = 1 \/ s = -1
       end.
Proof.
  unfold splice_block, first_ref_strand. cbn [head mbind option_bind].
  destruct (filter _ (records block)) as [|seqrec rest]; [done|].
  cbn [head mbind option_bind].
  destruct (annotations seqrec) as [anno|] eqn:Hanno; [|done].
  cbn [mbind option_bind].
  intros H. apply bind_ok in H as (strand_ & [= <-] & H).
  apply bind_ok in H as (fs & Hfs & H).
  apply bind_ok in H as (rec_start & _ & H).
  apply bind_ok in H as (ungapped & _ & H).
  apply bind_ok in H as (sbp & _ & H).
  apply bind_ok in H as ([[tv rp] sbp'] & _ & [= <-]).
  cbn [ref_first_strand]. exists (strand anno). split; [done|].
  destruct (ref_first_strand st) as [s|].
  - case_bool_decide as Hs; [done|]. injection Hfs as <-. by subst s.
  - case_bool_decide as Hs; [|done]. by injection Hfs as <-.
Qed.

Lemma fold_splice_block_ref_strand st blocks st' s :
  fold_result (splice_block target) st blocks = Ok st' ->
  ref_first_strand st = Some s ->
  Forall (fun block => first_ref_strand target [block] = Some s) blocks.
Proof.
  revert st. induction blocks as [|block blocks IH]; intros st; cbn [fold_result];
    [constructor|].
  intros H Hs. apply bind_ok in H as (st1 & Hblock & H).
  apply splice_block_ref_strand in Hblock as (s' & Hfirst & Hst1 & Hsame).
  rewrite Hs in Hsame. subst s'. constructor; [done|]. by apply (IH st1).
Qed.

(** When [get_spliced] returns an alignment spliced from fetched blocks,
    every fetched block has a row of the reference sequence, and these
    rows all have the same strand, 1 or -1. *)
Theorem fetched_blocks_share_strand starts ends strand_ fetched al :
  search maf target db starts ends = (fetched, None) ->
  fetched <> [] ->
  get_spliced reverse_complement maf target db starts ends strand_ = Ok al ->
  exists rs, (rs = 1 \/ rs = -1)
             /\ Forall (fun block => first_ref_strand target [block] = Some rs) fetched.
Proof.
  intros Hsearch Hne. unfold get_spliced. case_bool_decide as Hstrand; [done|].
  rewrite Hsearch. cbv zeta.
  rewrite bool_decide_eq_false_2 by (by destruct fetched).
  intros H. apply bind_ok in H as ([fs subseq] & Hsplice & _).
  apply splice_ok in Hsplice as (st & target_seq & Htexts & _).
  unfold splice_texts in Htexts. cbv zeta in Htexts.
  apply bind_ok in Htexts as (st' & Hfold & _).
  destruct fetched as [|block blocks]; [done|]. cbn [fold_result] in Hfold.
  apply bind_ok in Hfold as (st1 & Hblock & Hfold).
  apply splice_block_ref_strand in Hblock as (rs & Hfirst & Hst1 & Hvalid).
  cbn [ref_first_strand] in Hvalid. exists rs. split; [done|].
  constructor; [done|]. by eapply fold_splice_block_ref_strand.
Qed.

End Query.

Lemma invalid_query_rejected_witness :
  search Sample.maf_text Sample.target Sample.index [100; 200] [103; 200]
  = ([], Some ValueError).
Proof.
  apply (invalid_query_rejected Sample.dna_reverse_complement Sample.maf_text
           Sample.target Sample.index [100; 200] [103; 200] 1).
  right. apply Exists_cons_tl, Exists_cons_hd. cbn. lia.
Defined.

Lemma get_spliced_ids_witness :
  NoDup (id <$> records Sample.spliced)
  /\ forall name,
       name ∈ id <$> records Sample.spliced <->
       ((search Sample.maf_text Sample.target Sample.index [100; 200] [103; 205]).1 = []
        /\ name = Sample.target)
       \/ exists block r,
            block ∈ (search Sample.maf_text Sample.target Sample.index
                       [100; 200] [103; 205]).1
            /\ r ∈ records block /\ id r = name.
Proof.
  apply (get_spliced_ids Sample.dna_reverse_complement Sample.maf_text Sample.target
           Sample.index [100; 200] [103; 205] 1).
  - vm_compute. reflexivity.
  - vm_compute. reflexivity.
Defined.

Lemma fetched_blocks_share_strand_witness :
  exists rs, (rs = 1 \/ rs = -1)
             /\ Forall (fun block => first_ref_strand Sample.target [block] = Some rs)
                  (search Sample.maf_text Sample.target Sample.index
                     [100; 200] [103; 205]).1.
Proof.
  apply (fetched_blocks_share_strand Sample.dna_reverse_complement Sample.maf_text
           Sample.target Sample.index [100; 200] [103; 205] 1 _ Sample.spliced).
  - vm_compute. reflexivity.
  - vm_compute. discriminate.
  - vm_compute. reflexivity.
Defined.

End SplicerMore.

(** ** Theorems: the writer *)

Module WriterFacts.

(** *** Splitting a line into its fields *)

Lemma split_from_spaces ws l :
  Forall (fun c => is_space c = true) ws ->
  split_from [] (ws ++ l) = split_from [] l.
Proof. induction 1 as [|c ws Hc _ IH]; [done|]. cbn. by rewrite Hc. Qed.

Lemma split_from_token tok cur l :
  Forall (fun c => is_space c = false) tok ->
  split_from cur (tok ++ l) = split_from (reverse tok ++ cur) l.
Proof.
  intros Htok. revert cur. induction Htok as [|c tok Hc _ IH]; intros cur; [done|].
  cbn [app split_from]. rewrite Hc, IH, reverse_cons, <- app_assoc. done.
Qed.

(** A field, the whitespace before it and the whitespace after it. *)
Lemma split_from_field pre tok post l :
  Forall (fun c => is_space c = true) pre ->
  tok <> [] -> Forall (fun c => is_space c = false) tok ->
  post <> [] -> Forall (fun c => is_space c = true) post ->
  split_from [] (pre ++ tok ++ post ++ l) = tok :: split_from [] l.
Proof.
  intros Hpre Hne Htok Hpost_ne Hpost.
  rewrite split_from_spaces, split_from_token, app_nil_r by done.
  destruct post as [|w post]; [done|]. apply Forall_cons in Hpost as [Hw Hpost].
  cbn [app split_from]. rewrite Hw.
  destruct (reverse tok) as [|c rtok] eqn:Hrev.
  { apply (f_equal reverse) in Hrev. rewrite reverse_involutive in Hrev. done. }
  rewrite <- Hrev, reverse_involutive. f_equal. by apply split_from_spaces.
Qed.

(** The last field of a line. *)
Lemma split_from_last_field pre tok :
  Forall (fun c => is_space c = true) pre ->
  tok <> [] -> Forall (fun c => is_space c = false) tok ->
  split_from [] (pre ++ tok) = [tok].
Proof.
  intros Hpre Hne Htok.
  rewrite split_from_spaces by done.
  rewrite <- (app_nil_r tok) at 1. rewrite split_from_token, app_nil_r by done.
  cbn [split_from]. destruct (reverse tok) as [|c rtok] eqn:Hrev.
  { apply (f_equal reverse) in Hrev. rewrite reverse_involutive in Hrev. done. }
  by rewrite <- Hrev, reverse_involutive.
Qed.

Lemma lstrip_spaces ws c l :
  Forall (fun c => is_space c = true) ws -> is_space c = false ->
  lstrip (ws ++ c :: l) = c :: l.
Proof.
  intros Hws Hc. induction Hws as [|w ws Hw _ IH]; cbn; [by rewrite Hc|by rewrite Hw].
Qed.

(** [strip] takes the newline, and nothing else, off a line that begins
    and ends with something else than whitespace. *)
Lemma strip_line c body d ws :
  is_space c = false -> is_space d = false ->
  Forall (fun c => is_space c = true) ws ->
  strip (c :: body ++ d :: ws) = c :: body ++ [d].
Proof.
  intros Hc Hd Hws. unfold strip. cbn [lstrip]. rewrite Hc.
  replace (reverse (c :: body ++ d :: ws)) with (reverse ws ++ d :: reverse (c :: body)).
  - rewrite lstrip_spaces; [|by apply Forall_reverse|done].
    rewrite reverse_cons, reverse_involutive. done.
  - rewrite !reverse_cons, reverse_app, reverse_cons, <- !app_assoc. done.
Qed.

(** *** The fields [_write_record] writes *)

Lemma replicate_spaces n : Forall (fun c => is_space c = true) (replicate n " "%char).
Proof. induction n; constructor; done. Qed.

Lemma replace_spaces_token s :
  s <> [] ->
  Forall (fun c => c = " "%char \/ is_space c = false) s ->
  replace_spaces s <> []
  /\ Forall (fun c => is_space c = false) (replace_spaces s).
Proof.
  intros Hne Hs. split; [by destruct s|].
  unfold replace_spaces. apply Forall_fmap. eapply Forall_impl; [exact Hs|].
  intros c [->|Hc]; cbn; [done|]. by case_bool_decide.
Qed.

Lemma replace_spaces_id s : " "%char ∉ s -> replace_spaces s = s.
Proof.
  unfold replace_spaces. induction s as [|c s IH]; [done|].
  intros Hs. apply not_elem_of_cons in Hs as [Hc Hs].
  rewrite fmap_cons, IH by done. by rewrite bool_decide_eq_false_2.
Qed.

(** The decimal text of an integer is one field. *)
Lemma str_of_Z_token n :
  str_of_Z n <> [] /\ Forall (fun c => is_space c = false) (str_of_Z n).
Proof.
  unfold str_of_Z. destruct n as [|p|p].
  - split; [done|]. by repeat constructor.
  - destruct (IntFacts.unsigned_int_pretty p) as (Hdigits & Hne & _).
    change (pretty (Z.pos p)) with (pretty (N.pos p)). split; [done|].
    eapply Forall_impl; [exact Hdigits|]. intros c [d Hd].
    by eapply IntFacts.digit_not_space.
  - destruct (IntFacts.unsigned_int_pretty p) as (Hdigits & Hne & _).
    change (s2l (pretty (Z.neg p))) with ("-"%char :: s2l (pretty (N.pos p))).
    split; [done|]. constructor; [done|].
    eapply Forall_impl; [exact Hdigits|]. intros c [d Hd].
    by eapply IntFacts.digit_not_space.
Qed.

Lemma nonempty_last {A : Type} (l : list A) :
  l <> [] -> exists init d, l = init ++ [d].
Proof.
  intros Hne. destruct (reverse l) as [|d rl] eqn:Hrev.
  - apply (f_equal reverse) in Hrev. by rewrite reverse_involutive in Hrev.
  - exists (reverse rl), d. apply (f_equal reverse) in Hrev.
    by rewrite reverse_involutive, reverse_cons in Hrev.
Qed.

(** The three shapes of a field in the line of a record. *)
Lemma split_field tok l :
  tok <> [] -> Forall (fun c => is_space c = false) tok ->
  split_from [] (tok ++ " "%char :: l) = tok :: split_from [] l.
Proof.
  intros Hne Htok.
  apply (split_from_field [] tok [" "%char] l); by repeat constructor.
Qed.

Lemma split_field_right n tok l :
  tok <> [] -> Forall (fun c => is_space c = false) tok ->
  split_from [] (replicate n " "%char ++ tok ++ " "%char :: l) = tok :: split_from [] l.
Proof.
  intros Hne Htok.
  apply (split_from_field (replicate n " "%char) tok [" "%char] l);
    [apply replicate_spaces|done|done|done|by repeat constructor].
Qed.

Lemma split_field_left n tok l :
  tok <> [] -> Forall (fun c => is_space c = false) tok ->
  split_from [] (tok ++ replicate n " "%char ++ " "%char :: l) = tok :: split_from [] l.
Proof.
  intros Hne Htok.
  pose proof (split_from_field [] tok (replicate n " "%char ++ [" "%char]) l) as H.
  rewrite <- app_assoc in H. apply H; [constructor|done|done|by destruct n|].
  apply Forall_app. split; [apply replicate_spaces|by repeat constructor].
Qed.

(** Lists of characters with their appends nested to the right. *)
Local Ltac right_nested := repeat (rewrite <- app_assoc || rewrite <- app_comm_cons).

(** The fields of the line written for a record. *)
Lemma write_record_fields record :
  writable record ->
  split (strip (_write_record record))
  = [s2l "s";
     replace_spaces (id record);
     str_of_Z (match annotations record with Some anno => start anno | None => 0 end);
     str_of_Z (match annotations record with
               | Some anno => size anno
               | None => len (ungap (seq record))
               end);
     match annotations record with
     | Some anno => if bool_decide (strand anno = -1) then s2l "-" else s2l "+"
     | None => s2l "+"
     end;
     str_of_Z (match annotations record with Some anno => srcSize anno | None => 0 end);
     seq record].
Proof.
  intros (Hid_ne & Hid & Hseq_ne & Hseq & _).
  destruct (replace_spaces_token _ Hid_ne Hid) as [Hid'_ne Hid'].
  set (start_ := match annotations record with Some anno => start anno | None => 0 end).
  set (size_ := match annotations record with
                | Some anno => size anno
                | None => len (ungap (seq record))
                end).
  set (srcSize_ := match annotations record with
                   | Some anno => srcSize anno
                   | None => 0
                   end).
  set (strand_ := match annotations record with
                  | Some anno => if bool_decide (strand anno = -1) then s2l "-" else s2l "+"
                  | None => s2l "+"
                  end).
  assert (Hstrand : strand_ <> [] /\ Forall (fun c => is_space c = false) strand_).
  { unfold strand_. destruct (annotations record); [case_bool_decide|];
      split; try done; by repeat constructor. }
  destruct (nonempty_last _ Hseq_ne) as (init & d & Hlast).
  assert (is_space d = false) as Hd.
  { rewrite Hlast in Hseq. apply Forall_app in Hseq as [_ Hd].
    by apply Forall_cons in Hd as [? _]. }
  set (body := " "%char :: replace_spaces (id record)
                 ++ replicate (40 - length (replace_spaces (id record))) " "%char
                 ++ " "%char :: replicate (15 - length (str_of_Z start_)) " "%char
                 ++ str_of_Z start_
                 ++ " "%char :: replicate (5 - length (str_of_Z size_)) " "%char
                 ++ str_of_Z size_
                 ++ " "%char :: strand_
                 ++ " "%char :: replicate (15 - length (str_of_Z srcSize_)) " "%char
                 ++ str_of_Z srcSize_
                 ++ " "%char :: init).
  assert (Hline : _write_record record = "s"%char :: body ++ d :: ["010"%char]).
  { unfold _write_record, ljust, rjust, body. cbv zeta. cbn [join].
    fold start_ size_ srcSize_.
    replace (match annotations record with
             | Some anno =>
                 if bool_decide (strand anno = 1) then s2l "+"
                 else if bool_decide (strand anno = -1) then s2l "-" else s2l "+"
             | None => s2l "+"
             end) with strand_.
    - change (s2l "s") with ["s"%char]. change (s2l " ") with [" "%char].
      rewrite Hlast. right_nested. done.
    - unfold strand_. destruct (annotations record) as [anno|]; [|done].
      repeat case_bool_decide; try done; lia. }
  rewrite Hline, strip_line; [|done|done|by repeat constructor].
  unfold body. right_nested. rewrite <- Hlast. unfold split.
  destruct (str_of_Z_token start_) as [? ?]. destruct (str_of_Z_token size_) as [? ?].
  destruct (str_of_Z_token srcSize_) as [? ?]. destruct Hstrand as [? ?].
  change ("s"%char :: " "%char :: ?l) with (["s"%char] ++ " "%char :: l).
  rewrite (split_field ["s"%char]) by (by repeat constructor).
  rewrite split_field_left by done.
  rewrite split_field_right by done.
  rewrite split_field_right by done.
  rewrite split_field by done.
  rewrite split_field_right by done.
  pose proof (split_from_last_field [] (seq record) (List.Forall_nil _) Hseq_ne Hseq)
    as Hlastfield.
  cbn [app] in Hlastfield. by rewrite Hlastfield.
Qed.

Lemma parse_written_line recs record :
  writable record ->
  parse_s_line recs (_write_record record) = Ok (read_back record).
Proof.
  intros Hw.
  rewrite (ParserFacts.parse_s_line_fields recs _ _ _ _ _ _ _ _ _ _ _
             (write_record_fields record Hw)
             (IntFacts.py_int_str_of_Z _) (IntFacts.py_int_str_of_Z _)
             (IntFacts.py_int_str_of_Z _)).
  destruct Hw as (_ & _ & _ & _ & Hdot). cbv zeta.
  rewrite (bool_decide_eq_false_2 _ Hdot). unfold read_back. do 3 f_equal.
  destruct (annotations record) as [anno|]; [|done].
  f_equal. by destruct (bool_decide (strand anno = -1)).
Qed.

(** Write, then read: on the line [_write_record] writes for a writable
    record, the sequence-line branch of the parser builds the record back,
    up to the changes [read_back] lists; a record with its annotations, a
    strand of 1 or -1 and no space in its identifier comes back as it
    was. *)
Theorem write_then_parse_record recs record :
  writable record ->
  startswith (s2l "s") (_write_record record) = true
  /\ parse_s_line recs (_write_record record) = Ok (read_back record)
  /\ (forall anno,
        annotations record = Some anno ->
        strand anno = 1 \/ strand anno = -1 ->
        " "%char ∉ id record ->
        read_back record = record).
Proof.
  intros Hw. split; [reflexivity|]. split.
  - by apply parse_written_line.
  - intros anno Hanno Hstrand Hspace. unfold read_back.
    rewrite replace_spaces_id, Hanno by done.
    destruct record as [seq_ id_ annos], anno as [start_ size_ strand_ srcSize_].
    cbn in *. subst annos. do 3 f_equal.
    case_bool_decide; lia.
Qed.

Lemma write_then_parse_record_witness :
  parse_s_line [] (_write_record Sample.ref_record) = Ok (read_back Sample.ref_record)
  /\ read_back Sample.ref_record = Sample.ref_record.
Proof.
  assert (writable Sample.ref_record) as Hw.
  { repeat split; try discriminate; try (by repeat constructor). compute_done. }
  split.
  - apply (write_then_parse_record [] Sample.ref_record Hw).
  - apply (proj2 (proj2 (write_then_parse_record [] Sample.ref_record Hw))
             {| start := 100; size := 5; strand := 1; srcSize := 1000 |});
      [reflexivity | by left | compute_done].
Defined.

(** *** Writing a block and reading it *)

Lemma rawlines_from_line cur body rest :
  "010"%char ∉ body -> "013"%char ∉ body -> "013"%char ∉ cur ->
  rawlines_from cur (body ++ "010"%char :: rest)
  = (reverse cur ++ body ++ ["010"%char]) :: rawlines_from [] rest.
Proof.
  revert cur. induction body as [|c body IH]; intros cur Hlf Hcr Hcur.
  - cbn [app rawlines_from]. rewrite bool_decide_eq_true_2 by done.
    by rewrite reverse_cons.
  - apply not_elem_of_cons in Hlf as [Hc Hlf].
    apply not_elem_of_cons in Hcr as [Hc' Hcr].
    cbn [app rawlines_from]. rewrite bool_decide_eq_false_2 by done.
    rewrite bool_decide_eq_false_2.
    2:{ intros Hhead. apply Hcur. destruct cur as [|c0 cur]; [done|].
        injection Hhead as ->. left. }
    rewrite IH by (by try apply not_elem_of_cons).
    by rewrite reverse_cons, <- app_assoc.
Qed.

(** Lines without carriage returns that end with their only line feed are
    what [readline] cuts their concatenation into. *)
Lemma readlines_lines lines :
  Forall (fun line => exists body,
            line = body ++ ["010"%char]
            /\ ("010"%char ∉ body) /\ ("013"%char ∉ body)) lines ->
  readlines (concat lines) = lines.
Proof.
  unfold readlines, rawlines.
  induction 1 as [|line lines (body & -> & Hlf & Hcr) _ IH]; [done|].
  cbn [concat]. rewrite <- app_assoc. cbn [app].
  rewrite rawlines_from_line by (done || apply not_elem_of_nil).
  rewrite fmap_cons, IH. f_equal. apply IndexerMore.text_line_plain.
  apply not_elem_of_app. split; [done|].
  apply not_elem_of_cons. split; [done|apply not_elem_of_nil].
Qed.

Lemma join_Forall (P : ascii -> Prop) sep parts :
  Forall P sep -> Forall (Forall P) parts -> Forall P (join sep parts).
Proof.
  intros Hsep. induction 1 as [|part parts Hpart Hparts IH]; [constructor|].
  cbn [join]. destruct parts as [|part' parts]; [done|].
  apply Forall_app. split; [done|]. apply Forall_app. by split.
Qed.

(** The line of a record has no carriage return and ends with its only
    line feed. *)
Lemma write_record_line record :
  writable record ->
  exists body, _write_record record = body ++ ["010"%char]
               /\ ("010"%char ∉ body) /\ ("013"%char ∉ body).
Proof.
  intros (Hid_ne & Hid & Hseq_ne & Hseq & _). eexists. split; [reflexivity|].
  assert (Hok : forall l, Forall (fun c => c = " "%char \/ is_space c = false) l ->
                          ("010"%char ∉ l) /\ ("013"%char ∉ l)).
  { intros l Hl. rewrite Forall_forall in Hl.
    split; intros Hin; by destruct (Hl _ Hin). }
  assert (Htok : forall l, Forall (fun c => is_space c = false) l ->
                           Forall (fun c => c = " "%char \/ is_space c = false) l).
  { intros l Hl. eapply Forall_impl; [exact Hl|]. by right. }
  assert (Hpad : forall n, Forall (fun c => c = " "%char \/ is_space c = false)
                             (replicate n " "%char)).
  { intros n. induction n; constructor; [by left|done]. }
  apply Hok, join_Forall; [repeat constructor; by left|].
  repeat (apply List.Forall_cons || apply List.Forall_nil); unfold ljust, rjust.
  - by right.
  - apply Forall_app. split; [|done].
    by apply Htok, replace_spaces_token.
  - apply Forall_app. split; [done|]. apply Htok, str_of_Z_token.
  - apply Forall_app. split; [done|]. apply Htok, str_of_Z_token.
  - destruct (annotations record); repeat case_bool_decide; repeat constructor; by right.
  - apply Forall_app. split; [done|]. apply Htok, str_of_Z_token.
  - by apply Htok.
Qed.

Lemma iter_run_outside_skip seq_count st line lines :
  in_a_bundle st = false -> line <> [] -> startswith (s2l "a") line = false ->
  iter_run seq_count st (line :: lines) = iter_run seq_count st lines.
Proof.
  intros Hout Hne Ha. cbn [iter_run]. unfold iter_step at 1. rewrite Hout, Ha.
  destruct (startswith (s2l "#") line); [done|].
  by rewrite bool_decide_eq_false_2.
Qed.

(** Inside a block, the lines of writable records add the records. *)
Lemma iter_run_records seq_count st recs lines :
  in_a_bundle st = true ->
  Forall writable recs ->
  iter_run seq_count st ((_write_record <$> recs) ++ lines)
  = iter_run seq_count
      {| in_a_bundle := true;
         bundle_annotations := bundle_annotations st;
         bundle_records := bundle_records st ++ (read_back <$> recs) |} lines.
Proof.
  intros Hin Hrecs. revert st Hin.
  induction Hrecs as [|record recs Hw _ IH]; intros st Hin.
  - cbn [fmap list_fmap app]. rewrite app_nil_r. by destruct st; cbn in *; subst.
  - rewrite !fmap_cons. cbn [app iter_run]. unfold iter_step at 1. rewrite Hin.
    change (startswith (s2l "s") (_write_record record)) with true.
    rewrite parse_written_line by done.
    cbn [mbind result_bind]. rewrite IH by done. cbn [bundle_annotations bundle_records].
    by rewrite <- app_assoc.
Qed.

Lemma MultipleSeqAlignment_equal recs :
  (forall r r', r ∈ recs -> r' ∈ recs -> length (seq r) = length (seq r')) ->
  MultipleSeqAlignment recs = Ok {| records := recs; _annotations := ∅ |}.
Proof.
  intros Hall. unfold MultipleSeqAlignment. destruct recs as [|r0 recs]; [done|].
  replace (forallb _ (r0 :: recs)) with true; [done|]. symmetry.
  apply forallb_forall. intros r Hr%list_elem_of_In.
  apply bool_decide_eq_true. apply Hall; [done|left].
Qed.

(** The check of [write_alignment]: more than one length. *)
Lemma lengths_differ (recs : list SeqRecord) :
  (1 < base.size (list_to_set (C := gset Z) ((fun x => len (seq x)) <$> recs)))%nat <->
  exists r r', r ∈ recs /\ r' ∈ recs /\ length (seq r) <> length (seq r').
Proof.
  set (lens := list_to_set (C := gset Z) ((fun x => len (seq x)) <$> recs)).
  assert (Hlens : forall n, n ∈ lens <-> exists r, r ∈ recs /\ n = len (seq r)).
  { intros n. unfold lens. rewrite elem_of_list_to_set, list_elem_of_fmap.
    split; intros (r & ? & ?); by exists r. }
  split.
  - intros Hsize.
    destruct (size_pos_elem_of lens ltac:(lia)) as [n Hn].
    assert (0 < base.size (lens ∖ {[n]}))%nat as Hrest.
    { rewrite size_difference by set_solver. rewrite size_singleton. lia. }
    apply size_pos_elem_of in Hrest as [m Hm].
    apply elem_of_difference in Hm as [Hm Hne]. rewrite elem_of_singleton in Hne.
    apply Hlens in Hn as (r & Hr & ->). apply Hlens in Hm as (r' & Hr' & ->).
    exists r, r'. repeat split; [done..|]. unfold len in Hne. congruence.
  - intros (r & r' & Hr & Hr' & Hne).
    assert (len (seq r) ∈ lens) as Hn by (apply Hlens; by exists r).
    assert (len (seq r') ∈ lens) as Hm by (apply Hlens; by exists r').
    destruct (decide (base.size lens = 0%nat)) as [H0|H0].
    { apply size_empty_iff in H0. rewrite H0 in Hn. by apply not_elem_of_empty in Hn. }
    destruct (decide (base.size lens = 1%nat)) as [H1|H1]; [|lia].
    pose proof (size_singleton_inv _ _ _ H1 Hn Hm) as Heq. unfold len in Heq. lia.
Qed.

(** [write_alignment] refuses an alignment exactly when two of its records
    differ in length; otherwise it reports the number of records. *)
Theorem write_alignment_lengths has_annotations alignment :
  (write_alignment has_annotations alignment = Raise ValueError <->
     exists r r', r ∈ records alignment /\ r' ∈ records alignment
                  /\ length (seq r) <> length (seq r'))
  /\ forall text n,
       write_alignment has_annotations alignment = Ok (text, n) ->
       n = len (records alignment).
Proof.
  unfold write_alignment. rewrite <- lengths_differ. split.
  - case_bool_decide; split; done.
  - intros text n. case_bool_decide; [done|]. by intros [= _ <-].
Qed.

(** Write, then read: the text [write_header] and [write_alignment] write
    for an alignment without the attribute [_annotations] and with
    writable records is read by [MafIterator] as one alignment, with the
    records read back in their order and the default score. *)
Theorem write_then_read_alignment alignment text n :
  write_alignment false alignment = Ok (text, n) ->
  Forall writable (records alignment) ->
  iter_run None iter_init (readlines (write_header ++ text))
  = Ok (Some {| records := read_back <$> records alignment;
                _annotations := {[ s2l "score" := s2l "0.00" ]} |}).
Proof.
  unfold write_alignment. case_bool_decide as Hlens; [done|]. intros [= <- _] Hw.
  rewrite lengths_differ in Hlens.
  assert (Htext :
      write_header ++ s2l "a " ++ s2l "score=0.00" ++ ["010"%char]
        ++ concat (_write_record <$> records alignment) ++ ["010"%char]
      = concat ([s2l "##maf version=1 scoring=none" ++ ["010"%char];
                 s2l "# generated by Biopython" ++ ["010"%char];
                 ["010"%char];
                 s2l "a score=0.00" ++ ["010"%char]]
                ++ fmap (M := list) _write_record (records alignment)
                ++ [["010"%char]])).
  { rewrite !concat_app. cbn [concat]. unfold write_header.
    rewrite <- !app_assoc, app_nil_r. done. }
  etransitivity;
    [apply (f_equal (fun t => iter_run None iter_init (readlines t))); exact Htext|].
  clear Htext. rewrite readlines_lines.
  2:{ apply Forall_app. split; [|apply Forall_app; split].
      - repeat (apply List.Forall_cons || apply List.Forall_nil);
          (eexists; split; [reflexivity|split; compute_done])
          || (exists []; split; [reflexivity|split; compute_done]).
      - apply Forall_fmap. eapply Forall_impl; [exact Hw|].
        intros record Hrecord. by apply write_record_line.
      - apply List.Forall_cons; [|apply List.Forall_nil].
        exists []. split; [reflexivity|split; compute_done]. }
  cbn [app].
  do 3 (rewrite iter_run_outside_skip by done).
  cbn [iter_run].
  change (iter_step None iter_init (s2l "a score=0.00" ++ ["010"%char]))
    with (Ok (Continue {| in_a_bundle := true;
                          bundle_annotations := {[ s2l "score" := s2l "0.00" ]};
                          bundle_records := [] |}) : result action).
  cbn [mbind result_bind]. rewrite iter_run_records by done.
  cbn [bundle_annotations bundle_records app iter_run].
  unfold iter_step. cbn [in_a_bundle bundle_records bundle_annotations].
  change (startswith (s2l "s") ["010"%char]) with false.
  change (startswith (s2l "i") ["010"%char]) with false.
  change (startswith (s2l "e") ["010"%char]) with false.
  change (startswith (s2l "q") ["010"%char]) with false.
  change (startswith (s2l "#") ["010"%char]) with false.
  change (bool_decide (strip ["010"%char] = [])) with true.
  cbn [mbind result_bind]. rewrite MultipleSeqAlignment_equal; [done|].
  intros r r' (x & -> & Hx)%list_elem_of_fmap (x' & -> & Hx')%list_elem_of_fmap.
  cbn [read_back seq]. apply dec_stable. intros Hne. apply Hlens. by exists x, x'.
Qed.

Lemma write_then_read_alignment_witness :
  iter_run None iter_init
    (readlines (write_header
                ++ (s2l "a score=0.00" ++ ["010"%char]
                    ++ concat (_write_record <$> records Sample.spliced)
                    ++ ["010"%char])))
  = Ok (Some {| records := read_back <$> records Sample.spliced;
                _annotations := {[ s2l "score" := s2l "0.00" ]} |}).
Proof.
  apply (write_then_read_alignment Sample.spliced _ 2).
  - reflexivity.
  - repeat constructor; try discriminate; compute_done.
Defined.

Lemma write_alignment_lengths_witness :
  write_alignment true
    {| records := [Sample.ref_record;
                   {| seq := s2l "AC"; id := s2l "alt"; annotations := None |}];
       _annotations := ∅ |}
  = Raise ValueError.
Proof.
  apply (write_alignment_lengths true).
  exists Sample.ref_record, {| seq := s2l "AC"; id := s2l "alt"; annotations := None |}.
  split; [left|]. split; [right; left|]. discriminate.
Defined.

End WriterFacts.
